(** * Configuration assembly of the task-management backend

    A shallow embedding of package [config] (functions [LoadConfig],
    [loadDotEnvFiles], [DefaultCronConfig] and the configuration structs)
    together with the parts of the Go standard library, koanf,
    mapstructure and go-playground/validator that the package calls.

    Go strings are byte sequences; they are modelled by [string], whose
    characters are 8-bit [ascii] values.  Go's [int] is modelled by [Z]. *)

From Stdlib Require Import String Ascii List ZArith NArith Bool Lia.
From Stdlib Require Import Permutation.
Import ListNotations.
Open Scope string_scope.

(* ------------------------------------------------------------------ *)
(** ** Package [strings] of the Go standard library *)
(* ------------------------------------------------------------------ *)

Module strings.

(** Byte value of a character. *)
Definition byte (c : ascii) : N := N_of_ascii c.

(** [utf8.RuneSelf]: bytes below it are single-byte runes. *)
Definition RuneSelf : N := 0x80.

Fixpoint drop (n : nat) (s : string) : string :=
  match n, s with
  | O, _ => s
  | S _, EmptyString => EmptyString
  | S m, String _ r => drop m r
  end.

(** [strings.HasPrefix s prefix]. *)
Definition HasPrefix (s pre : string) : bool := String.prefix pre s.

(** [strings.TrimPrefix]: [s] without the leading [pre], or [s] itself. *)
Definition TrimPrefix (s pre : string) : string :=
  if HasPrefix s pre then drop (String.length pre) s else s.

(** The table [asciiSpace] of package strings. *)
Definition asciiSpace (c : ascii) : bool :=
  match byte c with
  | 9 | 10 | 11 | 12 | 13 | 32 => true
  | _ => false
  end%N.

(** [unicode.IsSpace] on a code point: the Latin-1 spaces and the
    characters of the White_Space property. *)
Definition IsSpace (r : N) : bool :=
  match r with
  | 9 | 10 | 11 | 12 | 13 | 32 | 0x85 | 0xA0 => true
  | 0x1680 | 0x2028 | 0x2029 | 0x202F | 0x205F | 0x3000 => true
  | _ => (0x2000 <=? r) && (r <=? 0x200A)
  end%N.

(** UTF-8 decoding as [utf8.DecodeRuneInString] does it, for the widths
    that can hold a space: a continuation byte, a two-byte and a three-byte
    sequence.  Anything malformed decodes to [RuneError] (U+FFFD, width 1),
    which is not a space, and no rune of four bytes is one. *)
Definition cont (b : N) : bool := ((0x80 <=? b) && (b <=? 0xBF))%N.

Definition decode2 (a b : ascii) : option N :=
  let x := byte a in let y := byte b in
  if ((0xC2 <=? x) && (x <=? 0xDF))%N && cont y
  then Some ((x mod 32) * 64 + y mod 64)%N
  else None.

Definition accept3 (x y : N) : bool :=
  (if x =? 0xE0 then (0xA0 <=? y) && (y <=? 0xBF)
   else if x =? 0xED then (0x80 <=? y) && (y <=? 0x9F)
   else (0xE1 <=? x) && (x <=? 0xEF) && cont y)%N.

Definition decode3 (a b c : ascii) : option N :=
  let x := byte a in let y := byte b in let z := byte c in
  if accept3 x y && cont z
  then Some ((x mod 16) * 4096 + (y mod 64) * 64 + z mod 64)%N
  else None.

Definition isSpace2 (a b : ascii) : bool :=
  match decode2 a b with Some r => IsSpace r | None => false end.

Definition isSpace3 (a b c : ascii) : bool :=
  match decode3 a b c with Some r => IsSpace r | None => false end.

(** The loop of [TrimLeftFunc] and [TrimRightFunc]: while the text starts
    with a rune that is a space, of one, two or three bytes ([w1], [w2],
    [w3]), the rune is dropped. *)
Section Runes.

Variable w1 : ascii -> bool.
Variable w2 : ascii -> ascii -> bool.
Variable w3 : ascii -> ascii -> ascii -> bool.

Fixpoint dropRunes (s : string) : string :=
  match s with
  | EmptyString => s
  | String a r =>
      if w1 a then dropRunes r
      else match r with
           | EmptyString => s
           | String b r1 =>
               if w2 a b then dropRunes r1
               else match r1 with
                    | EmptyString => s
                    | String c r2 => if w3 a b c then dropRunes r2 else s
                    end
           end
  end.

Definition startsWithRune (s : string) : bool :=
  match s with
  | EmptyString => false
  | String a r =>
      w1 a ||
      match r with
      | EmptyString => false
      | String b r1 =>
          w2 a b ||
          match r1 with
          | EmptyString => false
          | String c _ => w3 a b c
          end
      end
  end.

(** [Starts s r]: [s] starts with a rune that is a space and goes on as
    [r]. *)
Inductive Starts : string -> string -> Prop :=
| Starts1 a r : w1 a = true -> Starts (String a r) r
| Starts2 a b r :
    w1 a = false -> w2 a b = true -> Starts (String a (String b r)) r
| Starts3 a b c r :
    w1 a = false -> w2 a b = false -> w3 a b c = true ->
    Starts (String a (String b (String c r))) r.

End Runes.

(** [TrimLeftFunc s unicode.IsSpace]: runes are decoded from the front. *)
Definition TrimLeftSpace (s : string) : string :=
  dropRunes asciiSpace isSpace2 isSpace3 s.

Definition leadingSpace (s : string) : bool :=
  startsWithRune asciiSpace isSpace2 isSpace3 s.

Fixpoint revApp (s acc : string) : string :=
  match s with
  | EmptyString => acc
  | String c r => revApp r (String c acc)
  end.

Definition reverse (s : string) : string := revApp s EmptyString.

(** The same loop from the end, run on the reversed text: the last rune is
    decoded as [utf8.DecodeLastRuneInString] does, looking back for the
    byte that starts it, so the bytes arrive last first. *)
Definition isSpace2Rev (c b : ascii) : bool := isSpace2 b c.
Definition isSpace3Rev (c b a : ascii) : bool := isSpace3 a b c.

Definition dropSpaceRev (s : string) : string :=
  dropRunes asciiSpace isSpace2Rev isSpace3Rev s.

(** [TrimRightFunc s unicode.IsSpace]. *)
Definition TrimRightSpace (s : string) : string :=
  reverse (dropSpaceRev (reverse s)).

Definition trailingSpace (s : string) : bool :=
  startsWithRune asciiSpace isSpace2Rev isSpace3Rev (reverse s).

(** [strings.TrimSpace]: its ASCII fast path and its fall-back to
    [TrimFunc] both remove every leading and every trailing space rune. *)
Definition TrimSpace (s : string) : string :=
  TrimRightSpace (TrimLeftSpace s).

Definition isUpper (c : ascii) : bool := ((65 <=? byte c) && (byte c <=? 90))%N.

Definition lowerByte (c : ascii) : ascii :=
  if isUpper c then ascii_of_N (byte c + 32) else c.

Fixpoint mapBytes (f : ascii -> ascii) (s : string) : string :=
  match s with
  | EmptyString => EmptyString
  | String c r => String (f c) (mapBytes f r)
  end.

Fixpoint isASCII (s : string) : bool :=
  match s with
  | EmptyString => true
  | String c r => (byte c <? RuneSelf)%N && isASCII r
  end.

(** [strings.ToLower].  An ASCII-only string is lowered byte by byte; any
    other string goes through [strings.Map unicode.ToLower], whose Unicode
    case tables are outside this development and taken as [unicodeLower]. *)
Definition ToLower (unicodeLower : string -> string) (s : string) : string :=
  if isASCII s then mapBytes lowerByte s else unicodeLower s.

(** [strings.Split s sep] for a one-byte separator: every occurrence
    splits, so the result has one more element than [s] has separators. *)
Fixpoint Split (s : string) (sep : ascii) : list string :=
  match s with
  | EmptyString => [EmptyString]
  | String c r =>
      if Ascii.eqb c sep then EmptyString :: Split r sep
      else match Split r sep with
           | h :: t => String c h :: t
           | [] => [String c EmptyString]
           end
  end.

(** The text before and after the first [sep], if there is one. *)
Fixpoint Cut (s : string) (sep : ascii) : option (string * string) :=
  match s with
  | EmptyString => None
  | String c r =>
      if Ascii.eqb c sep then Some (EmptyString, r)
      else match Cut r sep with
           | Some (a, b) => Some (String c a, b)
           | None => None
           end
  end.

(** [strings.SplitN s sep 2] for a one-byte separator. *)
Definition SplitN2 (s : string) (sep : ascii) : list string :=
  match Cut s sep with
  | Some (a, b) => [a; b]
  | None => [s]
  end.

Fixpoint contains (s : string) (c : ascii) : bool :=
  match s with
  | EmptyString => false
  | String d r => Ascii.eqb d c || contains r c
  end.

End strings.

Import strings.

Definition LF : ascii := "010"%char.
Definition CR : ascii := "013"%char.
Definition NUL : ascii := "000"%char.
Definition dquote : ascii := "034"%char.
Definition squote : ascii := "'"%char.

(* ------------------------------------------------------------------ *)
(** ** Process environment, files and line scanning *)
(* ------------------------------------------------------------------ *)

Module os.

(** The process environment in the order [os.Environ] lists it: package
    syscall keeps the entries in a slice, a new key is appended and an
    existing key is replaced in place.  An entry [KEY=VALUE] is kept as the
    pair of its key and value (a key never contains ['=']). *)
Definition Env := list (string * string).

Fixpoint Getenv (key : string) (env : Env) : option string :=
  match env with
  | [] => None
  | (k, v) :: rest => if String.eqb k key then Some v else Getenv key rest
  end.

Fixpoint put (key val : string) (env : Env) : Env :=
  match env with
  | [] => [(key, val)]
  | (k, v) :: rest =>
      if String.eqb k key then (key, val) :: rest
      else (k, v) :: put key val rest
  end.

(** [syscall.Setenv] answers EINVAL for an empty key, for a key holding
    ['='] or a NUL byte and for a value holding a NUL byte. *)
Definition validKey (key : string) : bool :=
  negb (String.eqb key "") && negb (contains key "="%char)
  && negb (contains key NUL).

Definition validValue (val : string) : bool := negb (contains val NUL).

(** [os.Setenv]; the caller drops the error, so a refused call leaves the
    environment as it was. *)
Definition Setenv (key val : string) (env : Env) : Env :=
  if validKey key && validValue val then put key val env else env.

(** What [os.Open] followed by reading to the end gives for a path:
    [None] when the file cannot be opened. *)
Definition FileSystem := string -> option string.

End os.

Module bufio.

(** [bufio.MaxScanTokenSize]. *)
Definition MaxScanTokenSize : N := 65536.

(** [dropCR]: one trailing carriage return is removed. *)
Fixpoint dropCR (s : string) : string :=
  match s with
  | EmptyString => EmptyString
  | String c EmptyString => if Ascii.eqb c CR then EmptyString else s
  | String c r => String c (dropCR r)
  end.

(** The raw lines of [ScanLines]: the text between newlines; nothing is
    produced for the empty rest after a final newline. *)
Definition rawLines (content : string) : list string :=
  let segs := Split content LF in
  match rev segs with
  | EmptyString :: before => rev before
  | _ => segs
  end.

Definition fits (raw : string) : bool :=
  (N.of_nat (String.length raw) <? MaxScanTokenSize)%N.

(** A line that does not fit the scanner's buffer makes [Scan] answer
    false with [ErrTooLong]: that line and all later ones are not seen. *)
Fixpoint scanWhileFits (raws : list string) : list string :=
  match raws with
  | [] => []
  | raw :: rest => if fits raw then dropCR raw :: scanWhileFits rest else []
  end.

(** The successive values of [scanner.Text ()] over a file's content. *)
Definition scanLines (content : string) : list string :=
  scanWhileFits (rawLines content).

End bufio.

Import os.

(** The quote stripping of [loadDotEnvFiles]: a value of two bytes or more
    whose first and last bytes are both a double quote or both a single
    quote loses them. *)
Definition lastByte (s : string) : option ascii :=
  match reverse s with
  | EmptyString => None
  | String c _ => Some c
  end.

Definition dropLast (s : string) : string :=
  match reverse s with
  | EmptyString => EmptyString
  | String _ r => reverse r
  end.

Definition isQuoted (val : string) : bool :=
  match val, lastByte val with
  | String c0 _, Some cl =>
      (Ascii.eqb c0 dquote && Ascii.eqb cl dquote)
      || (Ascii.eqb c0 squote && Ascii.eqb cl squote)
  | _, _ => false
  end.

Definition stripQuotes (val : string) : string :=
  if (2 <=? String.length val)%nat then
    if isQuoted val then dropLast (drop 1 val) else val
  else val.

(** The body of the scanning loop up to the call of [os.Setenv]: the key
    and value a line assigns, if it is an assignment. *)
Definition parseLine (text : string) : option (string * string) :=
  let line := TrimSpace text in
  if String.eqb line "" || HasPrefix line "#" then None
  else match SplitN2 line "="%char with
       | [p0; p1] =>
           let key := TrimSpace p0 in
           let val := TrimSpace p1 in
           Some (key, stripQuotes val)
       | _ => None
       end.

Definition loadLine (env : Env) (text : string) : Env :=
  match parseLine text with
  | Some (key, val) => Setenv key val env
  | None => env
  end.

Definition loadFile (env : Env) (content : string) : Env :=
  fold_left loadLine (bufio.scanLines content) env.

(** [loadDotEnvFiles]: the files are read in order, a file that cannot be
    opened is skipped, and the function always answers [nil]. *)
Definition loadDotEnvFiles (fs : FileSystem) (paths : list string) (env : Env)
  : Env :=
  fold_left (fun e p => match fs p with
                        | None => e
                        | Some content => loadFile e content
                        end) paths env.

(* ------------------------------------------------------------------ *)
(** ** The configuration structs *)
(* ------------------------------------------------------------------ *)

(** A Go slice of strings: [None] is the nil slice. *)
Definition StringSlice := option (list string).

Module Primary.
Record t := mk { Env : string }.
Definition zero : t := mk "".
End Primary.

Module ServerConfig.
Record t := mk {
  Port : string;
  ReadTimeout : Z;
  WriteTimeout : Z;
  IdleTimeout : Z;
  CORSAllowedOrigins : StringSlice
}.
Definition zero : t := mk "" 0 0 0 None.
End ServerConfig.

Module DatabaseConfig.
Record t := mk {
  Host : string;
  Port : Z;
  User : string;
  Password : string;
  Name : string;
  SSLMode : string;
  MaxOpenConns : Z;
  MaxIdleConns : Z;
  ConnMaxLifetime : Z;
  ConnMaxIdleTime : Z
}.
Definition zero : t := mk "" 0 "" "" "" "" 0 0 0 0.
End DatabaseConfig.

Module AWSConfig.
Record t := mk {
  Region : string;
  AccessKeyID : string;
  SecretAccessKey : string;
  UploadBucket : string;
  EndpointURL : string
}.
Definition zero : t := mk "" "" "" "" "".
End AWSConfig.

Module CronConfig.
Record t := mk {
  ArchiveDaysThreshold : Z;
  BatchSize : Z;
  ReminderHours : Z;
  MaxTodosPerUserNotification : Z
}.
Definition zero : t := mk 0 0 0 0.
End CronConfig.

Definition DefaultCronConfig : CronConfig.t :=
  {| CronConfig.ArchiveDaysThreshold := 30;
     CronConfig.BatchSize := 100;
     CronConfig.ReminderHours := 24;
     CronConfig.MaxTodosPerUserNotification := 10 |}.

Module RedisConfig.
Record t := mk { Address : string; Password : string }.
Definition zero : t := mk "" "".
End RedisConfig.

Module IntegrationConfig.
Record t := mk { ResendAPIKey : string }.
Definition zero : t := mk "".
End IntegrationConfig.

Module AuthConfig.
Record t := mk { SecretKey : string }.
Definition zero : t := mk "".
End AuthConfig.

(** [ObservabilityConfig] is declared in a file of the package that is not
    part of the sources at hand.  [LoadConfig] assigns its two string
    fields [ServiceName] and [Environment]; whatever else the struct holds
    is kept as [Settings], of a type [X] left open. *)
Module ObservabilityConfig.
Record t (X : Type) := mk {
  ServiceName : string;
  Environment : string;
  Settings : X
}.
Arguments mk {X} _ _ _.
Arguments ServiceName {X} _.
Arguments Environment {X} _.
Arguments Settings {X} _.
End ObservabilityConfig.

Module Config.
Record t (X : Type) := mk {
  Primary : Primary.t;
  Server : ServerConfig.t;
  Database : DatabaseConfig.t;
  Auth : AuthConfig.t;
  Redis : RedisConfig.t;
  Integration : IntegrationConfig.t;
  Observability : option (ObservabilityConfig.t X);
  AWS : AWSConfig.t;
  Cron : option CronConfig.t
}.
Arguments mk {X} _ _ _ _ _ _ _ _ _.
Arguments Primary {X} _.
Arguments Server {X} _.
Arguments Database {X} _.
Arguments Auth {X} _.
Arguments Redis {X} _.
Arguments Integration {X} _.
Arguments Observability {X} _.
Arguments AWS {X} _.
Arguments Cron {X} _.

Definition setObservability {X} (o : option (ObservabilityConfig.t X))
  (c : t X) : t X :=
  mk (Primary c) (Server c) (Database c) (Auth c) (Redis c) (Integration c)
     o (AWS c) (Cron c).

Definition setRedis {X} (r : RedisConfig.t) (c : t X) : t X :=
  mk (Primary c) (Server c) (Database c) (Auth c) r (Integration c)
     (Observability c) (AWS c) (Cron c).

Definition setCron {X} (k : option CronConfig.t) (c : t X) : t X :=
  mk (Primary c) (Server c) (Database c) (Auth c) (Redis c) (Integration c)
     (Observability c) (AWS c) k.
End Config.

(* ------------------------------------------------------------------ *)
(** ** koanf: the environment provider and the key tree *)
(* ------------------------------------------------------------------ *)

Module koanf.

(** A value of the configuration map [map[string]interface{}]: a string
    read from the environment or a nested map.  Maps are kept as
    association lists with one entry per key. *)
#[warnings="-register-all"]
Inductive Value : Type :=
| Str (s : string)
| Map (m : list (string * Value)).

Definition Conf := list (string * Value).

Fixpoint get {A} (key : string) (m : list (string * A)) : option A :=
  match m with
  | [] => None
  | (k, v) :: rest => if String.eqb k key then Some v else get key rest
  end.

Fixpoint put {A} (key : string) (val : A) (m : list (string * A))
  : list (string * A) :=
  match m with
  | [] => [(key, val)]
  | (k, v) :: rest =>
      if String.eqb k key then (key, val) :: rest
      else (k, v) :: put key val rest
  end.

(** The provider's [Read]: every variable whose name has the prefix is
    passed to the callback; an empty answer drops the variable, any other
    answer is the key its value is stored under. *)
Definition Read (pre : string) (cb : string -> string) (env : os.Env)
  : list (string * string) :=
  fold_left (fun mp kv =>
               if HasPrefix (fst kv) pre then
                 let key := cb (fst kv) in
                 if String.eqb key "" then mp else put key (snd kv) mp
               else mp) env [].

(** One round of the loop of [maps.Unflatten]: the key parts but the last
    walk down the tree, creating the maps that are missing; a part that is
    bound to a string is stepped over and the walk goes on in the same
    map.  The last part is bound to the value. *)
Fixpoint setPath (keys : list string) (v : string) (m : Conf) : Conf :=
  match keys with
  | [] => m
  | k :: rest =>
      match rest with
      | [] => put k (Str v) m
      | _ :: _ =>
          match get k m with
          | None => put k (Map (setPath rest v [])) m
          | Some (Map sub) => put k (Map (setPath rest v sub)) m
          | Some (Str _) => setPath rest v m
          end
      end
  end.

(** [maps.Unflatten mp delim], the entries of [mp] being taken in the
    order of the list. *)
Definition Unflatten (mp : list (string * string)) (delim : ascii) : Conf :=
  fold_left (fun out kv => setPath (Split (fst kv) delim) (snd kv) out) mp [].

(** Look a path up in the tree. *)
Fixpoint lookup (keys : list string) (m : Conf) : option Value :=
  match keys with
  | [] => None
  | k :: rest =>
      match rest with
      | [] => get k m
      | _ :: _ =>
          match get k m with
          | Some (Map sub) => lookup rest sub
          | _ => None
          end
      end
  end.

(** [prefixOf p q]: the path [p] is the beginning of the path [q]. *)
Fixpoint prefixOf (p q : list string) : bool :=
  match p, q with
  | [], _ => true
  | _ :: _, [] => false
  | a :: p', b :: q' => String.eqb a b && prefixOf p' q'
  end.

Definition comparable (p q : list string) : bool :=
  prefixOf p q || prefixOf q p.

(** [clear keys m]: walking down [keys] in [m] meets no string before the
    last part. *)
Fixpoint clear (keys : list string) (m : Conf) : bool :=
  match keys with
  | [] => true
  | k :: rest =>
      match rest with
      | [] => true
      | _ :: _ =>
          match get k m with
          | None => true
          | Some (Map sub) => clear rest sub
          | Some (Str _) => false
          end
      end
  end.

Fixpoint pairwise {A} (r : A -> A -> bool) (l : list A) : bool :=
  match l with
  | [] => true
  | a :: rest => forallb (r a) rest && pairwise r rest
  end.

Definition paths (mp : list (string * string)) (delim : ascii)
  : list (list string) :=
  map (fun kv => Split (fst kv) delim) mp.

(** No key of the flat map is, as a path, the beginning of another: the
    case in which the tree does not depend on the order of the entries. *)
Definition conflictFree (mp : list (string * string)) (delim : ascii) : bool :=
  pairwise (fun p q => negb (comparable p q)) (paths mp delim).

(** An entry of the flat map as a path and its value. *)
Definition entry (delim : ascii) (kv : string * string)
  : list string * string :=
  (Split (fst kv) delim, snd kv).

(** [Built P m]: the tree [m] holds the entries [P] and nothing else: each
    path of [P] leads to its value, a path comparable with none of [P]
    walks through maps only, and every key at the top starts a path of
    [P]. *)
Definition Built (P : list (list string * string)) (m : Conf) : Prop :=
  (forall p v, In (p, v) P -> lookup p m = Some (Str v))
  /\ (forall q, (forall p v, In (p, v) P -> comparable p q = false) ->
                clear q m = true)
  /\ (forall s, (forall p v, In (p, v) P -> hd "" p <> s) -> get s m = None).

End koanf.

(* ------------------------------------------------------------------ *)
(** ** go-playground/validator: the [required] tag *)
(* ------------------------------------------------------------------ *)

Module validator.

(** One entry of [validator.ValidationErrors]: the namespace of the field
    (struct and field names joined by dots) and the tag that failed. *)
Record FieldError := mkError { Namespace : string; Tag : string }.

Definition required (ns : string) (hasValue : bool) : list FieldError :=
  if hasValue then [] else [mkError ns "required"].

(** [hasValue]: a string must not be empty, an integer not zero and a
    slice not nil. *)
Definition reqString (ns s : string) : list FieldError :=
  required ns (negb (String.eqb s "")).

Definition reqInt (ns : string) (n : Z) : list FieldError :=
  required ns (negb (Z.eqb n 0)).

Definition reqSlice (ns : string) (l : StringSlice) : list FieldError :=
  required ns (match l with Some _ => true | None => false end).

End validator.

Import validator.

(* ------------------------------------------------------------------ *)
(** ** Package [config] *)
(* ------------------------------------------------------------------ *)

(** Why [LoadConfig] ends the process. *)
Inductive Failure : Type :=
| UnmarshalError
| ValidationErrors (errs : list FieldError)
| ObservabilityError (err : string).

(** [LoadConfig] either returns the configuration or logs at the fatal
    level, which exits the process ([zerolog]'s [Fatal] calls
    [os.Exit 1]); the message and the error logged are kept. *)
Inductive Outcome (A : Type) : Type :=
| Returns (a : A)
| Fatal (msg : string) (err : Failure).
Arguments Returns {A} _.
Arguments Fatal {A} _ _.

Notation "x <- e ;; k" :=
  (match e with Some x => k | None => None end)
  (at level 61, e at next level, right associativity).

(** The assignments the loader makes for a list of scanned lines, in
    order: what the lines parse to, less what [os.Setenv] refuses. *)
Definition accepted (kv : string * string) : bool :=
  validKey (fst kv) && validValue (snd kv).

Fixpoint assignments (lines : list string) : list (string * string) :=
  match lines with
  | [] => []
  | text :: rest =>
      match parseLine text with
      | Some kv => if accepted kv then kv :: assignments rest
                   else assignments rest
      | None => assignments rest
      end
  end.

(** The value a list of assignments leaves a key with: that of the last
    assignment to it. *)
Fixpoint lastValue (key : string) (l : list (string * string)) : option string :=
  match l with
  | [] => None
  | (k, v) :: rest =>
      match lastValue key rest with
      | Some w => Some w
      | None => if String.eqb k key then Some v else None
      end
  end.

(** [defines content key]: the value an override file gives a key, if it
    assigns the key at all. *)
Definition defines (content key : string) : option string :=
  lastValue key (assignments (bufio.scanLines content)).

(** The override files [LoadConfig] reads, and the environment once they
    are loaded. *)
Definition dotEnvPaths : list string := [".env"; "apps/backend/.env"].

Definition overlaid (fs : FileSystem) (env : Env) : Env :=
  loadDotEnvFiles fs dotEnvPaths env.

(** The normalisation of the Redis address in [LoadConfig]: a non-empty
    address is trimmed and loses one leading [redis://] or [rediss://]. *)
Definition normalizeRedisAddress (address : string) : string :=
  if negb (String.eqb address "") then
    let addr := TrimSpace address in
    if HasPrefix addr "redis://" then TrimPrefix addr "redis://"
    else if HasPrefix addr "rediss://" then TrimPrefix addr "rediss://"
    else addr
  else address.

(** The address of the configuration is replaced by its normal form. *)
Definition normalizeRedis {X} (c : Config.t X) : Config.t X :=
  Config.setRedis
    (RedisConfig.mk (normalizeRedisAddress (RedisConfig.Address (Config.Redis c)))
       (RedisConfig.Password (Config.Redis c))) c.

(** Default the Cron section when the pointer is nil. *)
Definition injectCron {X} (c : Config.t X) : Config.t X :=
  match Config.Cron c with
  | None => Config.setCron (Some DefaultCronConfig) c
  | Some _ => c
  end.

(** What lies outside the sources at hand is taken as given:
    - [unicodeLower], the Unicode branch of [strings.ToLower];
    - [equalFold], [strings.EqualFold], by which mapstructure matches a key
      with a field's tag when no key is the tag itself;
    - [rangeOrder], the order in which Go ranges over the flat map in
      [maps.Unflatten]: the language leaves it unspecified and chooses it
      anew at every call, it is some arrangement of the entries; the
      record describes one run, and two runs are compared through
      [reordered] and [mayEnd] below;
    - [decodeInt] and [decodeStrings], how mapstructure (with koanf's
      decoder settings) turns an environment string into an [int] and into
      a slice of strings; [None] is a decoding error;
    - the missing [ObservabilityConfig]: the type [ObsSettings] of its
      other fields, [decodeObservability] (its decoding from the key
      tree), [observabilityTags] (the failures of its [validate] tags),
      [DefaultObservabilityConfig] and its method [Validate]. *)
Record Externals : Type := {
  unicodeLower : string -> string;
  equalFold : string -> string -> bool;
  rangeOrder : list (string * string) -> list (string * string);
  rangeOrder_perm : forall mp, Permutation (rangeOrder mp) mp;
  decodeInt : string -> option Z;
  decodeStrings : string -> option (list string);
  ObsSettings : Type;
  decodeObservability : koanf.Conf -> option (ObservabilityConfig.t ObsSettings);
  observabilityTags : ObservabilityConfig.t ObsSettings -> list FieldError;
  DefaultObservabilityConfig : ObservabilityConfig.t ObsSettings;
  Validate : ObservabilityConfig.t ObsSettings -> option string
}.

Section LoadConfig.

Variable L : Externals.
Local Abbreviation X := (ObsSettings L).

(** The callback given to [env.Provider]. *)
Definition envKey (s : string) : string :=
  ToLower (unicodeLower L) (TrimPrefix s "TASKER_").

(** The flat map the provider reads from the environment. *)
Definition collected (env : Env) : list (string * string) :=
  koanf.Read "TASKER_" envKey env.

(** [k.Load (env.Provider "TASKER_" "." cb) nil] on a fresh koanf. *)
Definition Load (env : Env) : koanf.Conf :=
  koanf.Unflatten (rangeOrder L (collected env)) "."%char.

(** No collected key is the dotted beginning of another. *)
Definition conflictFree (env : Env) : bool :=
  koanf.conflictFree (collected env) "."%char.

(** [names key tag]: mapstructure may take the key for the field tagged
    [tag]: the key is the tag or matches it without regard to case. *)
Definition names (key tag : string) : bool :=
  String.eqb key tag || equalFold L key tag.

(** [supplies env section]: some collected key has a first dotted part
    that names [section].  [mentions env word]: some collected key has a
    dotted part that names [word]. *)
Definition supplies (env : Env) (section : string) : bool :=
  existsb (fun kv => names (hd "" (Split (fst kv) "."%char)) section)
    (collected env).

Definition mentions (env : Env) (word : string) : bool :=
  existsb (fun kv => existsb (fun part => names part word)
                       (Split (fst kv) "."%char))
    (collected env).

(** *** mapstructure: decoding the tree into the structs

    A field is looked up by its [koanf] tag, and failing that by the first
    key that matches the tag without regard to case; without a value it
    keeps its zero value.  A string cannot fill a struct and a map cannot
    fill a string, an integer or a slice: these are decoding errors. *)
Definition matchName (tag : string) (kv : string * koanf.Value) : bool :=
  equalFold L (fst kv) tag.

Definition findField (m : koanf.Conf) (tag : string) : option koanf.Value :=
  match koanf.get tag m with
  | Some v => Some v
  | None => option_map snd (find (matchName tag) m)
  end.

Definition field {A} (m : koanf.Conf) (tag : string) (zero : A)
  (dec : koanf.Value -> option A) : option A :=
  match findField m tag with
  | None => Some zero
  | Some v => dec v
  end.

Definition asString (v : koanf.Value) : option string :=
  match v with koanf.Str s => Some s | koanf.Map _ => None end.

Definition asInt (v : koanf.Value) : option Z :=
  match v with koanf.Str s => decodeInt L s | koanf.Map _ => None end.

Definition asStrings (v : koanf.Value) : option StringSlice :=
  match v with
  | koanf.Str s => l <- decodeStrings L s ;; Some (Some l)
  | koanf.Map _ => None
  end.

Definition asStruct {A} (dec : koanf.Conf -> option A) (v : koanf.Value)
  : option A :=
  match v with koanf.Map m => dec m | koanf.Str _ => None end.

(** A pointer field is allocated when its key is present. *)
Definition asPointer {A} (dec : koanf.Conf -> option A) (v : koanf.Value)
  : option (option A) :=
  match v with
  | koanf.Map m => a <- dec m ;; Some (Some a)
  | koanf.Str _ => None
  end.

Definition decodePrimary (m : koanf.Conf) : option Primary.t :=
  env <- field m "env" "" asString ;;
  Some (Primary.mk env).

Definition decodeServer (m : koanf.Conf) : option ServerConfig.t :=
  port <- field m "port" "" asString ;;
  rt <- field m "read_timeout" 0%Z asInt ;;
  wt <- field m "write_timeout" 0%Z asInt ;;
  it <- field m "idle_timeout" 0%Z asInt ;;
  cors <- field m "cors_allowed_origins" None asStrings ;;
  Some (ServerConfig.mk port rt wt it cors).

Definition decodeDatabase (m : koanf.Conf) : option DatabaseConfig.t :=
  host <- field m "host" "" asString ;;
  port <- field m "port" 0%Z asInt ;;
  user <- field m "user" "" asString ;;
  password <- field m "password" "" asString ;;
  name <- field m "name" "" asString ;;
  sslmode <- field m "ssl_mode" "" asString ;;
  maxOpen <- field m "max_open_conns" 0%Z asInt ;;
  maxIdle <- field m "max_idle_conns" 0%Z asInt ;;
  lifetime <- field m "conn_max_lifetime" 0%Z asInt ;;
  idleTime <- field m "conn_max_idle_time" 0%Z asInt ;;
  Some (DatabaseConfig.mk host port user password name sslmode
          maxOpen maxIdle lifetime idleTime).

Definition decodeAuth (m : koanf.Conf) : option AuthConfig.t :=
  key <- field m "secret_key" "" asString ;;
  Some (AuthConfig.mk key).

Definition decodeRedis (m : koanf.Conf) : option RedisConfig.t :=
  address <- field m "address" "" asString ;;
  password <- field m "password" "" asString ;;
  Some (RedisConfig.mk address password).

Definition decodeIntegration (m : koanf.Conf) : option IntegrationConfig.t :=
  key <- field m "resend_api_key" "" asString ;;
  Some (IntegrationConfig.mk key).

Definition decodeAWS (m : koanf.Conf) : option AWSConfig.t :=
  region <- field m "region" "" asString ;;
  keyID <- field m "access_key_id" "" asString ;;
  secret <- field m "secret_access_key" "" asString ;;
  bucket <- field m "upload_bucket" "" asString ;;
  endpoint <- field m "endpoint_url" "" asString ;;
  Some (AWSConfig.mk region keyID secret bucket endpoint).

Definition decodeCron (m : koanf.Conf) : option CronConfig.t :=
  archive <- field m "archive_days_threshold" 0%Z asInt ;;
  batch <- field m "batch_size" 0%Z asInt ;;
  reminder <- field m "reminder_hours" 0%Z asInt ;;
  maxTodos <- field m "max_todos_per_user_notification" 0%Z asInt ;;
  Some (CronConfig.mk archive batch reminder maxTodos).

(** [k.Unmarshal "" mainConfig] into a zero [Config]. *)
Definition Unmarshal (m : koanf.Conf) : option (Config.t X) :=
  primary <- field m "primary" Primary.zero (asStruct decodePrimary) ;;
  server <- field m "server" ServerConfig.zero (asStruct decodeServer) ;;
  database <- field m "database" DatabaseConfig.zero (asStruct decodeDatabase) ;;
  auth <- field m "auth" AuthConfig.zero (asStruct decodeAuth) ;;
  redis <- field m "redis" RedisConfig.zero (asStruct decodeRedis) ;;
  integration <-
    field m "integration" IntegrationConfig.zero (asStruct decodeIntegration) ;;
  observability <-
    field m "observability" None (asPointer (decodeObservability L)) ;;
  aws <- field m "aws" AWSConfig.zero (asStruct decodeAWS) ;;
  cron <- field m "cron" None (asPointer decodeCron) ;;
  Some (Config.mk primary server database auth redis integration
          observability aws cron).

(** The string fields of the sections held by value, with the section
    and field tags that address them. *)
Definition stringFields : list (string * string * (Config.t X -> string)) :=
  [ ("primary", "env", fun c => Primary.Env (Config.Primary c));
    ("server", "port", fun c => ServerConfig.Port (Config.Server c));
    ("database", "host", fun c => DatabaseConfig.Host (Config.Database c));
    ("database", "user", fun c => DatabaseConfig.User (Config.Database c));
    ("database", "password",
      fun c => DatabaseConfig.Password (Config.Database c));
    ("database", "name", fun c => DatabaseConfig.Name (Config.Database c));
    ("database", "ssl_mode",
      fun c => DatabaseConfig.SSLMode (Config.Database c));
    ("auth", "secret_key", fun c => AuthConfig.SecretKey (Config.Auth c));
    ("redis", "address", fun c => RedisConfig.Address (Config.Redis c));
    ("redis", "password", fun c => RedisConfig.Password (Config.Redis c));
    ("integration", "resend_api_key",
      fun c => IntegrationConfig.ResendAPIKey (Config.Integration c));
    ("aws", "region", fun c => AWSConfig.Region (Config.AWS c));
    ("aws", "access_key_id", fun c => AWSConfig.AccessKeyID (Config.AWS c));
    ("aws", "secret_access_key",
      fun c => AWSConfig.SecretAccessKey (Config.AWS c));
    ("aws", "upload_bucket", fun c => AWSConfig.UploadBucket (Config.AWS c));
    ("aws", "endpoint_url", fun c => AWSConfig.EndpointURL (Config.AWS c)) ].

(** The integer fields of the same sections. *)
Definition intFields : list (string * string * (Config.t X -> Z)) :=
  [ ("server", "read_timeout",
      fun c => ServerConfig.ReadTimeout (Config.Server c));
    ("server", "write_timeout",
      fun c => ServerConfig.WriteTimeout (Config.Server c));
    ("server", "idle_timeout",
      fun c => ServerConfig.IdleTimeout (Config.Server c));
    ("database", "port", fun c => DatabaseConfig.Port (Config.Database c));
    ("database", "max_open_conns",
      fun c => DatabaseConfig.MaxOpenConns (Config.Database c));
    ("database", "max_idle_conns",
      fun c => DatabaseConfig.MaxIdleConns (Config.Database c));
    ("database", "conn_max_lifetime",
      fun c => DatabaseConfig.ConnMaxLifetime (Config.Database c));
    ("database", "conn_max_idle_time",
      fun c => DatabaseConfig.ConnMaxIdleTime (Config.Database c)) ].

(** *** [validate.Struct mainConfig]

    The failures of the [required] tags, in the order of the fields.  On a
    field that is itself a struct the tag is skipped and the struct's own
    fields are checked; a nil pointer without a tag is not entered. *)
Definition validatePrimary (p : Primary.t) : list FieldError :=
  reqString "Config.Primary.Env" (Primary.Env p).

Definition validateServer (s : ServerConfig.t) : list FieldError :=
  reqString "Config.Server.Port" (ServerConfig.Port s)
  ++ reqInt "Config.Server.ReadTimeout" (ServerConfig.ReadTimeout s)
  ++ reqInt "Config.Server.WriteTimeout" (ServerConfig.WriteTimeout s)
  ++ reqInt "Config.Server.IdleTimeout" (ServerConfig.IdleTimeout s)
  ++ reqSlice "Config.Server.CORSAllowedOrigins"
       (ServerConfig.CORSAllowedOrigins s).

Definition validateDatabase (d : DatabaseConfig.t) : list FieldError :=
  reqString "Config.Database.Host" (DatabaseConfig.Host d)
  ++ reqInt "Config.Database.Port" (DatabaseConfig.Port d)
  ++ reqString "Config.Database.User" (DatabaseConfig.User d)
  ++ reqString "Config.Database.Name" (DatabaseConfig.Name d)
  ++ reqString "Config.Database.SSLMode" (DatabaseConfig.SSLMode d)
  ++ reqInt "Config.Database.MaxOpenConns" (DatabaseConfig.MaxOpenConns d)
  ++ reqInt "Config.Database.MaxIdleConns" (DatabaseConfig.MaxIdleConns d)
  ++ reqInt "Config.Database.ConnMaxLifetime"
       (DatabaseConfig.ConnMaxLifetime d)
  ++ reqInt "Config.Database.ConnMaxIdleTime"
       (DatabaseConfig.ConnMaxIdleTime d).

Definition validateAuth (a : AuthConfig.t) : list FieldError :=
  reqString "Config.Auth.SecretKey" (AuthConfig.SecretKey a).

Definition validateRedis (r : RedisConfig.t) : list FieldError :=
  reqString "Config.Redis.Address" (RedisConfig.Address r).

Definition validateIntegration (i : IntegrationConfig.t) : list FieldError :=
  reqString "Config.Integration.ResendAPIKey"
    (IntegrationConfig.ResendAPIKey i).

Definition validateAWS (a : AWSConfig.t) : list FieldError :=
  reqString "Config.AWS.Region" (AWSConfig.Region a)
  ++ reqString "Config.AWS.AccessKeyID" (AWSConfig.AccessKeyID a)
  ++ reqString "Config.AWS.SecretAccessKey" (AWSConfig.SecretAccessKey a)
  ++ reqString "Config.AWS.UploadBucket" (AWSConfig.UploadBucket a).

Definition validateStruct (c : Config.t X) : list FieldError :=
  validatePrimary (Config.Primary c)
  ++ validateServer (Config.Server c)
  ++ validateDatabase (Config.Database c)
  ++ validateAuth (Config.Auth c)
  ++ validateRedis (Config.Redis c)
  ++ validateIntegration (Config.Integration c)
  ++ match Config.Observability c with
     | Some o => observabilityTags L o
     | None => []
     end
  ++ validateAWS (Config.AWS c).

(** *** The steps of [LoadConfig] after validation *)

(** Default the Observability section when the pointer is nil, then set
    the service name and the environment. *)
Definition injectObservability (c : Config.t X) : Config.t X :=
  let o := match Config.Observability c with
           | None => DefaultObservabilityConfig L
           | Some o => o
           end in
  Config.setObservability
    (Some (ObservabilityConfig.mk "tasker" (Primary.Env (Config.Primary c))
             (ObservabilityConfig.Settings o))) c.

Definition observabilityOf (c : Config.t X) : ObservabilityConfig.t X :=
  match Config.Observability c with
  | Some o => o
  | None => DefaultObservabilityConfig L
  end.

(** The part of [LoadConfig] that follows [k.Unmarshal]. *)
Definition finish (c : Config.t X) : Outcome (Config.t X) :=
  match validateStruct c with
  | e :: errs => Fatal "config validation failed" (ValidationErrors (e :: errs))
  | [] =>
      let c1 := normalizeRedis (injectObservability c) in
      match Validate L (observabilityOf c1) with
      | Some err => Fatal "invalid observability config" (ObservabilityError err)
      | None => Returns (injectCron c1)
      end
  end.

(** The configuration as populated from an environment. *)
Definition populate (env : Env) : option (Config.t X) := Unmarshal (Load env).

(** [LoadConfig], run with the files [fs] and the process environment
    [env]. *)
Definition LoadConfig (fs : FileSystem) (env : Env) : Outcome (Config.t X) :=
  match populate (overlaid fs env) with
  | None => Fatal "could not unmarshal main config" UnmarshalError
  | Some c => finish c
  end.

(** Every field tagged [required] has a value, and so has every tagged
    field of an Observability section that is present. *)
Definition requiredPresent (c : Config.t X) : Prop :=
  Primary.Env (Config.Primary c) <> ""
  /\ ServerConfig.Port (Config.Server c) <> ""
  /\ ServerConfig.ReadTimeout (Config.Server c) <> 0%Z
  /\ ServerConfig.WriteTimeout (Config.Server c) <> 0%Z
  /\ ServerConfig.IdleTimeout (Config.Server c) <> 0%Z
  /\ ServerConfig.CORSAllowedOrigins (Config.Server c) <> None
  /\ DatabaseConfig.Host (Config.Database c) <> ""
  /\ DatabaseConfig.Port (Config.Database c) <> 0%Z
  /\ DatabaseConfig.User (Config.Database c) <> ""
  /\ DatabaseConfig.Name (Config.Database c) <> ""
  /\ DatabaseConfig.SSLMode (Config.Database c) <> ""
  /\ DatabaseConfig.MaxOpenConns (Config.Database c) <> 0%Z
  /\ DatabaseConfig.MaxIdleConns (Config.Database c) <> 0%Z
  /\ DatabaseConfig.ConnMaxLifetime (Config.Database c) <> 0%Z
  /\ DatabaseConfig.ConnMaxIdleTime (Config.Database c) <> 0%Z
  /\ AuthConfig.SecretKey (Config.Auth c) <> ""
  /\ RedisConfig.Address (Config.Redis c) <> ""
  /\ IntegrationConfig.ResendAPIKey (Config.Integration c) <> ""
  /\ AWSConfig.Region (Config.AWS c) <> ""
  /\ AWSConfig.AccessKeyID (Config.AWS c) <> ""
  /\ AWSConfig.SecretAccessKey (Config.AWS c) <> ""
  /\ AWSConfig.UploadBucket (Config.AWS c) <> ""
  /\ (forall o, Config.Observability c = Some o -> observabilityTags L o = []).

End LoadConfig.

(* ------------------------------------------------------------------ *)
(** ** A concrete setting to run the model in *)
(* ------------------------------------------------------------------ *)

Module Sample.

(** Decimal numerals, on which [strconv.ParseInt] with base 0 agrees; the
    empty string is 0 under mapstructure's weak typing. *)
Fixpoint digits (s : string) (acc : Z) : option Z :=
  match s with
  | EmptyString => Some acc
  | String c r =>
      let d := byte c in
      if ((48 <=? d) && (d <=? 57))%N
      then digits r (10 * acc + Z.of_N (d - 48))%Z
      else None
  end.

Definition decimal (s : string) : option Z := digits s 0%Z.

Definition commaList (s : string) : option (list string) :=
  if String.eqb s "" then Some [] else Some (Split s ","%char).

(** An Observability section without further settings. *)
Definition decodeObs (m : koanf.Conf) : option (ObservabilityConfig.t unit) :=
  match koanf.get "service_name" m, koanf.get "environment" m with
  | Some (koanf.Map _), _ | _, Some (koanf.Map _) => None
  | Some (koanf.Str n), Some (koanf.Str e) =>
      Some (ObservabilityConfig.mk n e tt)
  | Some (koanf.Str n), None => Some (ObservabilityConfig.mk n "" tt)
  | None, Some (koanf.Str e) => Some (ObservabilityConfig.mk "" e tt)
  | None, None => Some (ObservabilityConfig.mk "" "" tt)
  end.

(** Equality without regard to the case of ASCII letters. *)
Definition asciiFold (a b : string) : bool :=
  String.eqb (mapBytes lowerByte a) (mapBytes lowerByte b).

Definition lib : Externals :=
  {| unicodeLower := fun s => s;
     equalFold := asciiFold;
     rangeOrder := fun mp => mp;
     rangeOrder_perm := fun mp => Permutation_refl mp;
     decodeInt := decimal;
     decodeStrings := commaList;
     ObsSettings := unit;
     decodeObservability := decodeObs;
     observabilityTags := fun _ => [];
     DefaultObservabilityConfig :=
       ObservabilityConfig.mk "boilerplate" "development" tt;
     Validate := fun _ => None |}.

(** Every required field but [server.port]. *)
Definition baseEnv : Env :=
  [ ("HOME", "/root");
    ("TASKER_PRIMARY.ENV", "local");
    ("TASKER_SERVER.READ_TIMEOUT", "30");
    ("TASKER_SERVER.WRITE_TIMEOUT", "30");
    ("TASKER_SERVER.IDLE_TIMEOUT", "60");
    ("TASKER_SERVER.CORS_ALLOWED_ORIGINS", "http://localhost:3000");
    ("TASKER_DATABASE.HOST", "db");
    ("TASKER_DATABASE.PORT", "5432");
    ("TASKER_DATABASE.USER", "postgres");
    ("TASKER_DATABASE.NAME", "tasker");
    ("TASKER_DATABASE.SSL_MODE", "disable");
    ("TASKER_DATABASE.MAX_OPEN_CONNS", "25");
    ("TASKER_DATABASE.MAX_IDLE_CONNS", "25");
    ("TASKER_DATABASE.CONN_MAX_LIFETIME", "300");
    ("TASKER_DATABASE.CONN_MAX_IDLE_TIME", "300");
    ("TASKER_AUTH.SECRET_KEY", "secret");
    ("TASKER_REDIS.ADDRESS", "redis://cache:6379");
    ("TASKER_INTEGRATION.RESEND_API_KEY", "re_key");
    ("TASKER_AWS.REGION", "eu-west-1");
    ("TASKER_AWS.ACCESS_KEY_ID", "id");
    ("TASKER_AWS.SECRET_ACCESS_KEY", "key");
    ("TASKER_AWS.UPLOAD_BUCKET", "uploads") ].

(** The variable named with a dot, and with an underscore. *)
Definition dottedEnv : Env :=
  (baseEnv ++ [("TASKER_SERVER.PORT", "8080")])%list.
Definition underscoreEnv : Env :=
  (baseEnv ++ [("TASKER_SERVER_PORT", "8080")])%list.

(** What [dottedEnv] populates. *)
Definition config : Config.t unit :=
  {| Config.Primary := Primary.mk "local";
     Config.Server :=
       ServerConfig.mk "8080" 30 30 60 (Some ["http://localhost:3000"]);
     Config.Database :=
       DatabaseConfig.mk "db" 5432 "postgres" "" "tasker" "disable"
         25 25 300 300;
     Config.Auth := AuthConfig.mk "secret";
     Config.Redis := RedisConfig.mk "redis://cache:6379" "";
     Config.Integration := IntegrationConfig.mk "re_key";
     Config.Observability := None;
     Config.AWS := AWSConfig.mk "eu-west-1" "id" "key" "uploads" "";
     Config.Cron := None |}.

(** The same without [database.name]. *)
Definition namelessEnv : Env :=
  filter (fun kv => negb (String.eqb (fst kv) "TASKER_DATABASE.NAME"))
    dottedEnv.

(** With one field of the Cron section, and with an Observability section
    that names another service and environment. *)
Definition cronEnv : Env :=
  (dottedEnv ++ [("TASKER_CRON.BATCH_SIZE", "5")])%list.

Definition observedEnv : Env :=
  (dottedEnv ++ [("TASKER_OBSERVABILITY.SERVICE_NAME", "other");
                 ("TASKER_OBSERVABILITY.ENVIRONMENT", "staging")])%list.

(** No override file can be opened. *)
Definition noFiles : FileSystem := fun _ => None.

(** Two override files that both assign [KEY]. *)
Definition newline : string := String LF "".

Definition fileA : string :=
  "# first file" ++ newline ++ "KEY=from_a" ++ newline ++ "ONLY_A=1" ++ newline.

Definition fileB : string := "KEY = from_b" ++ newline.

Definition twoFiles : FileSystem :=
  fun p => if String.eqb p ".env" then Some fileA
           else if String.eqb p "apps/backend/.env" then Some fileB
           else None.

(** The line [KEY="quoted value"]. *)
Definition quotedLine : string :=
  "KEY=" ++ String dquote "quoted value" ++ String dquote "".

(** The same assignment with blanks and a tab around the key and the
    value, a no-break space (U+00A0) in front and a carriage return at the
    end. *)
Definition paddedLine : string :=
  String "194" (String "160" "  KEY ") ++ "=" ++ String "009" " "
  ++ String dquote "quoted value" ++ String dquote " " ++ String CR "".

End Sample.

(* ------------------------------------------------------------------ *)
(** ** The loader and [LoadConfig] as a whole: further notions *)
(* ------------------------------------------------------------------ *)

(** [Blank s]: the text [s] is made of space runes and of nothing else. *)
Inductive Blank : string -> Prop :=
| Blank_nil : Blank ""
| Blank_rune s r :
    Starts asciiSpace isSpace2 isSpace3 s r -> Blank r -> Blank s.

(** Can the file be opened? *)
Definition present (fs : FileSystem) (path : string) : bool :=
  match fs path with Some _ => true | None => false end.

(** The assignments [loadDotEnvFiles] makes for a list of paths, in the
    order it makes them. *)
Definition fileAssignments (fs : FileSystem) (path : string)
  : list (string * string) :=
  match fs path with
  | None => []
  | Some content => assignments (bufio.scanLines content)
  end.

Definition allAssignments (fs : FileSystem) (paths : list string)
  : list (string * string) :=
  flat_map (fileAssignments fs) paths.

(** The environment after a list of accepted assignments. *)
Definition putAll (l : list (string * string)) (env : Env) : Env :=
  fold_left (fun e kv => put (fst kv) (snd kv) e) l env.

(** A variable whose name has the prefix of [LoadConfig]. *)
Definition prefixed (kv : string * string) : bool :=
  HasPrefix (fst kv) "TASKER_".

(** The tags of the sections of [Config] whose structs are in the sources
    at hand. *)
Definition sectionTags : list string :=
  [ "primary"; "server"; "database"; "auth"; "redis"; "integration";
    "aws"; "cron" ].

(** The failure of every [required] tag of [Config], in the order of the
    fields. *)
Definition allRequired : list FieldError :=
  map (fun ns => mkError ns "required")
    [ "Config.Primary.Env";
      "Config.Server.Port"; "Config.Server.ReadTimeout";
      "Config.Server.WriteTimeout"; "Config.Server.IdleTimeout";
      "Config.Server.CORSAllowedOrigins";
      "Config.Database.Host"; "Config.Database.Port";
      "Config.Database.User"; "Config.Database.Name";
      "Config.Database.SSLMode"; "Config.Database.MaxOpenConns";
      "Config.Database.MaxIdleConns"; "Config.Database.ConnMaxLifetime";
      "Config.Database.ConnMaxIdleTime";
      "Config.Auth.SecretKey"; "Config.Redis.Address";
      "Config.Integration.ResendAPIKey";
      "Config.AWS.Region"; "Config.AWS.AccessKeyID";
      "Config.AWS.SecretAccessKey"; "Config.AWS.UploadBucket" ].

(** The Observability section as [Validate] is called on it. *)
Definition identified (L : Externals) (c : Config.t (ObsSettings L))
  : ObservabilityConfig.t (ObsSettings L) :=
  ObservabilityConfig.mk "tasker" (Primary.Env (Config.Primary c))
    (ObservabilityConfig.Settings (observabilityOf L c)).

(** The fields of the Cron section, with their tags. *)
Definition cronFields : list (string * (CronConfig.t -> Z)) :=
  [ ("archive_days_threshold", CronConfig.ArchiveDaysThreshold);
    ("batch_size", CronConfig.BatchSize);
    ("reminder_hours", CronConfig.ReminderHours);
    ("max_todos_per_user_notification",
      CronConfig.MaxTodosPerUserNotification) ].


(** Go ranges over a map in an order it chooses anew at every call, so
    each run of [LoadConfig] has a [rangeOrder] of its own, the rest of
    the setting being the same. *)
Definition reordered (L : Externals)
  (order : list (string * string) -> list (string * string))
  (perm : forall mp, Permutation (order mp) mp) : Externals :=
  {| unicodeLower := unicodeLower L;
     equalFold := equalFold L;
     rangeOrder := order;
     rangeOrder_perm := perm;
     decodeInt := decodeInt L;
     decodeStrings := decodeStrings L;
     ObsSettings := ObsSettings L;
     decodeObservability := decodeObservability L;
     observabilityTags := observabilityTags L;
     DefaultObservabilityConfig := DefaultObservabilityConfig L;
     Validate := Validate L |}.

(** [mayEnd L fs env o]: a run of [LoadConfig] with the files [fs] and the
    environment [env] can end with [o], for some order in which the map
    is ranged over. *)
Definition mayEnd (L : Externals) (fs : FileSystem) (env : Env)
  (o : Outcome (Config.t (ObsSettings L))) : Prop :=
  exists order perm, LoadConfig (reordered L order perm) fs env = o.

(** A chain of decoding steps fails as soon as one of them does. *)
Ltac chain_none :=
  repeat match goal with
         | |- match ?e with Some _ => _ | None => None end = None =>
             first [ reflexivity | destruct e; [|reflexivity] ]
         end;
  reflexivity.

(** The content of a file written line by line, each line ended by a
    newline. *)
Fixpoint written (lines : list string) : string :=
  match lines with
  | [] => ""
  | l :: rest => l ++ String LF (written rest)
  end.

(** Further environments to run the model in. *)
Module Cases.

(** A line of 65536 bytes, one more than the scanner's buffer takes. *)
Definition longLine : string :=
  string_of_list_ascii
    (repeat "x"%char (N.to_nat bufio.MaxScanTokenSize)).

(** A Redis address that is a scheme and nothing else. *)
Definition bareSchemeEnv : Env :=
  map (fun kv => if String.eqb (fst kv) "TASKER_REDIS.ADDRESS"
                 then (fst kv, "redis://") else kv) Sample.dottedEnv.

(** The Cron section given as a single value. *)
Definition scalarCronEnv : Env :=
  (Sample.dottedEnv ++ [("TASKER_CRON", "5")])%list.

(** A timeout that is not a number. *)
Definition badTimeoutEnv : Env :=
  map (fun kv => if String.eqb (fst kv) "TASKER_SERVER.READ_TIMEOUT"
                 then (fst kv, "soon") else kv) Sample.dottedEnv.



(** The server port given twice, in different letter case. *)
Definition twicePortEnv : Env :=
  (Sample.dottedEnv ++ [("TASKER_Server.Port", "9090")])%list.

(** No variable with the prefix. *)
Definition foreignEnv : Env :=
  [ ("HOME", "/root"); ("tasker_server.port", "8080"); ("PATH", "/bin") ].

End Cases.

(** Inversion of one step of a decoder that succeeded. *)
Ltac bind_inv H :=
  match type of H with
  | match ?e with Some _ => _ | None => None end = Some _ =>
      let E := fresh "E" in destruct e eqn:E; [|discriminate H]
  end.


(* ------------------------------------------------------------------ *)
(** ** Facts about the string functions *)
(* ------------------------------------------------------------------ *)

Module StringFacts.

Lemma append_nil_r (s : string) : s ++ "" = s.
Proof. induction s as [|c s IH]; simpl; [reflexivity | now rewrite IH]. Qed.

Lemma append_assoc (a b c : string) : (a ++ b) ++ c = a ++ (b ++ c).
Proof. induction a as [|x a IH]; simpl; [reflexivity | now rewrite IH]. Qed.

Lemma length_append (a b : string) :
  String.length (a ++ b) = String.length a + String.length b.
Proof. induction a as [|x a IH]; simpl; [reflexivity | now rewrite IH]. Qed.

Lemma HasPrefix_app (pre r : string) : HasPrefix (pre ++ r) pre = true.
Proof.
  unfold HasPrefix. induction pre as [|c pre IH]; simpl.
  - now destruct r.
  - destruct (ascii_dec c c) as [_|n]; [exact IH | now elim n].
Qed.

Lemma drop_app (pre r : string) : drop (String.length pre) (pre ++ r) = r.
Proof. induction pre as [|c pre IH]; simpl; [reflexivity | exact IH]. Qed.

Lemma HasPrefix_split (s pre : string) :
  HasPrefix s pre = true -> s = pre ++ drop (String.length pre) s.
Proof.
  unfold HasPrefix. revert s.
  induction pre as [|c pre IH]; intros s H; simpl.
  - reflexivity.
  - destruct s as [|d s]; simpl in H; [discriminate|].
    destruct (ascii_dec c d) as [e|n]; [|discriminate].
    subst d. f_equal. now apply IH.
Qed.

Lemma TrimPrefix_app (pre r : string) : TrimPrefix (pre ++ r) pre = r.
Proof. unfold TrimPrefix. now rewrite HasPrefix_app, drop_app. Qed.

Lemma TrimPrefix_absent (s pre : string) :
  HasPrefix s pre = false -> TrimPrefix s pre = s.
Proof. unfold TrimPrefix. now intros ->. Qed.

Lemma length_drop (n : nat) (s : string) :
  String.length (drop n s) = String.length s - n.
Proof.
  revert s. induction n as [|n IH]; intros [|c s]; simpl; auto.
Qed.

(** *** Reversal *)

Lemma revApp_spec (s acc : string) : revApp s acc = reverse s ++ acc.
Proof.
  unfold reverse. revert acc.
  induction s as [|c s IH]; intros acc; simpl.
  - reflexivity.
  - rewrite (IH (String c acc)), (IH (String c "")).
    now rewrite append_assoc.
Qed.

Lemma reverse_cons (c : ascii) (s : string) :
  reverse (String c s) = reverse s ++ String c "".
Proof. unfold reverse at 1. simpl. apply revApp_spec. Qed.

Lemma reverse_app (a b : string) : reverse (a ++ b) = reverse b ++ reverse a.
Proof.
  induction a as [|c a IH]; simpl.
  - now rewrite append_nil_r.
  - now rewrite !reverse_cons, IH, append_assoc.
Qed.

Lemma reverse_involutive (s : string) : reverse (reverse s) = s.
Proof.
  induction s as [|c s IH]; [reflexivity|].
  now rewrite reverse_cons, reverse_app, IH.
Qed.

Lemma length_reverse (s : string) : String.length (reverse s) = String.length s.
Proof.
  induction s as [|c s IH]; [reflexivity|].
  rewrite reverse_cons, length_append, IH. simpl. lia.
Qed.

Lemma reverse_empty (s : string) : reverse s = "" -> s = "".
Proof.
  intros H. apply (f_equal String.length) in H.
  rewrite length_reverse in H. now destruct s.
Qed.

(** *** Dropping runes *)

Section Runes.

Variable w1 : ascii -> bool.
Variable w2 : ascii -> ascii -> bool.
Variable w3 : ascii -> ascii -> ascii -> bool.

Local Abbreviation dropW := (dropRunes w1 w2 w3).
Local Abbreviation startsW := (startsWithRune w1 w2 w3).
Local Abbreviation Starts := (Starts w1 w2 w3).

Lemma dropRunes_fixed (s : string) : startsW s = false -> dropW s = s.
Proof.
  destruct s as [|a [|b [|c r]]]; simpl; intros H;
    repeat (apply orb_false_iff in H; destruct H as [? H]);
    repeat match goal with E : _ = false |- _ => rewrite E; clear E end;
    try rewrite H; reflexivity.
Qed.

Lemma dropRunes_1 (a : ascii) (r : string) :
  w1 a = true -> dropW (String a r) = dropW r.
Proof. intros H. simpl. now rewrite H. Qed.

Lemma dropRunes_2 (a b : ascii) (r : string) :
  w1 a = false -> w2 a b = true -> dropW (String a (String b r)) = dropW r.
Proof. intros H1 H2. simpl. now rewrite H1, H2. Qed.

Lemma dropRunes_3 (a b c : ascii) (r : string) :
  w1 a = false -> w2 a b = false -> w3 a b c = true ->
  dropW (String a (String b (String c r))) = dropW r.
Proof. intros H1 H2 H3. simpl. now rewrite H1, H2, H3. Qed.

Lemma startsWithRune_inv (s : string) :
  startsW s = true -> exists r, Starts s r.
Proof.
  destruct s as [|a r]; simpl; [discriminate|].
  destruct (w1 a) eqn:E1; [intros _; exists r; now constructor|].
  destruct r as [|b r]; simpl; [discriminate|].
  destruct (w2 a b) eqn:E2; [intros _; exists r; now constructor|].
  destruct r as [|c r]; simpl; [discriminate|].
  intros E3. exists r. now constructor.
Qed.

Lemma Starts_drop (s r : string) : Starts s r -> dropW s = dropW r.
Proof.
  intros [a r' H1|a b r' H1 H2|a b c r' H1 H2 H3];
    [now apply dropRunes_1 | now apply dropRunes_2 | now apply dropRunes_3].
Qed.

Lemma Starts_split (s r : string) :
  Starts s r -> exists p, s = p ++ r /\ 0 < String.length p.
Proof.
  intros [a r' _|a b r' _ _|a b c r' _ _ _].
  - exists (String a ""). simpl. split; [reflexivity | lia].
  - exists (String a (String b "")). simpl. split; [reflexivity | lia].
  - exists (String a (String b (String c ""))). simpl. split; [reflexivity | lia].
Qed.

Lemma Starts_length (s r : string) :
  Starts s r -> String.length r < String.length s.
Proof.
  intros H. destruct (Starts_split s r H) as (p & -> & Hp).
  rewrite length_append. lia.
Qed.

Lemma by_length (P : string -> Prop) :
  (forall s, (forall t, String.length t < String.length s -> P t) -> P s) ->
  forall s, P s.
Proof.
  intros step s.
  assert (H : forall n t, String.length t < n -> P t).
  { induction n as [|n IH]; intros t Ht; [lia|].
    apply step. intros u Hu. apply IH. lia. }
  apply (H (S (String.length s))). lia.
Qed.

(** Whatever holds of a text that starts with no rune, and is carried from
    the rest to the whole across a rune, holds of what [dropRunes]
    leaves. *)
Lemma dropRunes_ind (P : string -> string -> Prop) :
  (forall s, startsW s = false -> P s s) ->
  (forall s r, Starts s r -> P r (dropW r) -> P s (dropW r)) ->
  forall s, P s (dropW s).
Proof.
  intros Hstop Hstep s.
  induction s as [s IH] using by_length.
  destruct (startsW s) eqn:E.
  - destruct (startsWithRune_inv s E) as [r Hr].
    rewrite (Starts_drop s r Hr). apply Hstep; [exact Hr|].
    apply IH. now apply Starts_length.
  - rewrite (dropRunes_fixed s E). now apply Hstop.
Qed.

Lemma dropRunes_length (s : string) :
  String.length (dropW s) <= String.length s.
Proof.
  apply (dropRunes_ind (fun s t => String.length t <= String.length s)).
  - intros; lia.
  - intros t r Hr Hle. apply Starts_length in Hr. lia.
Qed.

Lemma dropRunes_shorter (s : string) :
  startsW s = true -> String.length (dropW s) < String.length s.
Proof.
  intros E. destruct (startsWithRune_inv s E) as [r Hr].
  rewrite (Starts_drop s r Hr).
  pose proof (dropRunes_length r). apply Starts_length in Hr. lia.
Qed.

Lemma dropRunes_clean (s : string) : startsW (dropW s) = false.
Proof.
  apply (dropRunes_ind (fun _ t => startsW t = false)); auto.
Qed.

(** A rune that starts a text starts every extension of it. *)
Lemma startsWithRune_app (s t : string) :
  startsW s = true -> startsW (s ++ t) = true.
Proof.
  intros E. destruct (startsWithRune_inv s E) as [r Hr].
  destruct Hr as [a r H1|a b r H1 H2|a b c r H1 H2 H3]; simpl.
  - now rewrite H1.
  - now rewrite H1, H2.
  - now rewrite H1, H2, H3.
Qed.

(** What was dropped sits in front of what is left. *)
Lemma dropRunes_suffix (s : string) : exists p, s = p ++ dropW s.
Proof.
  apply (dropRunes_ind (fun s t => exists p, s = p ++ t)).
  - intros t _. now exists "".
  - intros t r Hr [p Hp]. destruct (Starts_split t r Hr) as (q & -> & _).
    exists (q ++ p). now rewrite append_assoc, <- Hp.
Qed.

End Runes.

(** *** Trimming spaces *)

Lemma TrimLeftSpace_fixed (s : string) :
  leadingSpace s = false -> TrimLeftSpace s = s.
Proof. apply dropRunes_fixed. Qed.

Lemma TrimRightSpace_fixed (s : string) :
  trailingSpace s = false -> TrimRightSpace s = s.
Proof.
  unfold trailingSpace, TrimRightSpace, dropSpaceRev. intros H.
  rewrite (dropRunes_fixed _ _ _ _ H). apply reverse_involutive.
Qed.

Lemma TrimSpace_fixed (s : string) :
  leadingSpace s = false -> trailingSpace s = false -> TrimSpace s = s.
Proof.
  intros Hl Hr. unfold TrimSpace.
  rewrite (TrimLeftSpace_fixed s Hl). now apply TrimRightSpace_fixed.
Qed.

Lemma trailingSpace_TrimRightSpace (s : string) :
  trailingSpace (TrimRightSpace s) = false.
Proof.
  unfold trailingSpace, TrimRightSpace, dropSpaceRev.
  rewrite reverse_involutive. apply dropRunes_clean.
Qed.

Lemma trailingSpace_TrimSpace (s : string) : trailingSpace (TrimSpace s) = false.
Proof. apply trailingSpace_TrimRightSpace. Qed.

Lemma trailingSpace_app (p s : string) :
  trailingSpace s = true -> trailingSpace (p ++ s) = true.
Proof.
  unfold trailingSpace. rewrite reverse_app. apply startsWithRune_app.
Qed.

Lemma TrimRightSpace_prefix (s : string) : exists q, s = TrimRightSpace s ++ q.
Proof.
  unfold TrimRightSpace, dropSpaceRev.
  destruct (dropRunes_suffix asciiSpace isSpace2Rev isSpace3Rev (reverse s))
    as [p Hp].
  exists (reverse p).
  rewrite <- reverse_app, <- Hp. symmetry. apply reverse_involutive.
Qed.

Lemma leadingSpace_TrimSpace (s : string) : leadingSpace (TrimSpace s) = false.
Proof.
  unfold TrimSpace.
  destruct (leadingSpace (TrimRightSpace (TrimLeftSpace s))) eqn:E;
    [|reflexivity].
  destruct (TrimRightSpace_prefix (TrimLeftSpace s)) as [q Hq].
  apply (startsWithRune_app _ _ _ _ q) in E. fold (leadingSpace) in E.
  unfold leadingSpace in E. rewrite <- Hq in E.
  unfold TrimLeftSpace in E. now rewrite dropRunes_clean in E.
Qed.

Lemma TrimSpace_idempotent (s : string) : TrimSpace (TrimSpace s) = TrimSpace s.
Proof.
  apply TrimSpace_fixed;
    [apply leadingSpace_TrimSpace | apply trailingSpace_TrimSpace].
Qed.

Lemma length_TrimRightSpace (s : string) :
  String.length (TrimRightSpace s) <= String.length s.
Proof.
  unfold TrimRightSpace, dropSpaceRev. rewrite length_reverse.
  rewrite <- (length_reverse s). apply dropRunes_length.
Qed.

Lemma length_TrimSpace (s : string) :
  String.length (TrimSpace s) <= String.length s.
Proof.
  unfold TrimSpace.
  pose proof (length_TrimRightSpace (TrimLeftSpace s)).
  pose proof (dropRunes_length asciiSpace isSpace2 isSpace3 s).
  unfold TrimLeftSpace in *. lia.
Qed.

Lemma length_TrimSpace_leading (s : string) :
  leadingSpace s = true -> String.length (TrimSpace s) < String.length s.
Proof.
  intros H. unfold TrimSpace.
  pose proof (length_TrimRightSpace (TrimLeftSpace s)).
  pose proof (dropRunes_shorter asciiSpace isSpace2 isSpace3 s H).
  unfold TrimLeftSpace in *. lia.
Qed.

End StringFacts.

Import StringFacts.

(* ------------------------------------------------------------------ *)
(** ** The Redis address *)
(* ------------------------------------------------------------------ *)

Lemma normalize_empty : normalizeRedisAddress "" = "".
Proof. reflexivity. Qed.

Lemma normalize_nonempty (x : string) :
  x <> "" ->
  normalizeRedisAddress x =
  let addr := TrimSpace x in
  if HasPrefix addr "redis://" then TrimPrefix addr "redis://"
  else if HasPrefix addr "rediss://" then TrimPrefix addr "rediss://"
  else addr.
Proof.
  intros H. unfold normalizeRedisAddress.
  apply String.eqb_neq in H. now rewrite H.
Qed.

(** The result is the trimmed address or what follows a scheme in it. *)
Lemma normalize_shape (x : string) :
  x <> "" ->
  normalizeRedisAddress x = TrimSpace x
  \/ (exists pre, TrimSpace x = pre ++ normalizeRedisAddress x
                  /\ 0 < String.length pre).
Proof.
  intros H. rewrite (normalize_nonempty x H). cbv zeta.
  destruct (HasPrefix (TrimSpace x) "redis://") eqn:E1.
  - right. exists "redis://". unfold TrimPrefix. rewrite E1.
    split; [now apply HasPrefix_split | simpl; lia].
  - destruct (HasPrefix (TrimSpace x) "rediss://") eqn:E2.
    + right. exists "rediss://". unfold TrimPrefix. rewrite E2.
      split; [now apply HasPrefix_split | simpl; lia].
    + now left.
Qed.

Lemma normalize_length (x : string) :
  String.length (normalizeRedisAddress x) <= String.length x.
Proof.
  destruct (string_dec x "") as [->|H]; [simpl; lia|].
  pose proof (length_TrimSpace x).
  destruct (normalize_shape x H) as [->|(pre & E & _)]; [exact H0|].
  rewrite E, length_append in H0. lia.
Qed.

Lemma normalize_trailing (x : string) :
  trailingSpace (normalizeRedisAddress x) = false.
Proof.
  destruct (string_dec x "") as [->|H]; [reflexivity|].
  pose proof (trailingSpace_TrimSpace x) as Ht.
  destruct (normalize_shape x H) as [->|(pre & E & _)]; [exact Ht|].
  destruct (trailingSpace (normalizeRedisAddress x)) eqn:T; [|reflexivity].
  apply (trailingSpace_app pre) in T. rewrite <- E in T. congruence.
Qed.

(** The addresses that normalisation leaves as they are. *)
Lemma normalize_fixed_iff (y : string) :
  normalizeRedisAddress y = y <->
  leadingSpace y = false /\ trailingSpace y = false
  /\ HasPrefix y "redis://" = false /\ HasPrefix y "rediss://" = false.
Proof.
  split.
  - intros Hfix.
    destruct (string_dec y "") as [->|Hne]; [now repeat split|].
    assert (Hlen : String.length (TrimSpace y) = String.length y).
    { pose proof (length_TrimSpace y).
      destruct (normalize_shape y Hne) as [E|(pre & E & Hp)].
      - now rewrite <- E, Hfix.
      - rewrite Hfix in E. rewrite E, length_append in H. lia. }
    assert (Hshape : normalizeRedisAddress y = TrimSpace y).
    { destruct (normalize_shape y Hne) as [E|(pre & E & Hp)]; [exact E|].
      rewrite Hfix in E. rewrite E, length_append in Hlen. lia. }
    assert (Ht : TrimSpace y = y) by congruence.
    assert (Hl : leadingSpace y = false).
    { destruct (leadingSpace y) eqn:E; [|reflexivity].
      pose proof (length_TrimSpace_leading y E). lia. }
    assert (Hr : trailingSpace y = false)
      by (rewrite <- Ht; apply trailingSpace_TrimSpace).
    repeat split; try assumption.
    + destruct (HasPrefix y "redis://") eqn:E; [|reflexivity].
      rewrite (normalize_nonempty y Hne) in Hfix. cbv zeta in Hfix.
      rewrite Ht, E in Hfix. apply (f_equal String.length) in Hfix.
      unfold TrimPrefix in Hfix. rewrite E, length_drop in Hfix.
      apply HasPrefix_split in E. apply (f_equal String.length) in E.
      rewrite length_append in E. simpl in *. lia.
    + destruct (HasPrefix y "rediss://") eqn:E; [|reflexivity].
      rewrite (normalize_nonempty y Hne) in Hfix. cbv zeta in Hfix.
      rewrite Ht, E in Hfix.
      destruct (HasPrefix y "redis://") eqn:E'.
      * apply (f_equal String.length) in Hfix.
        unfold TrimPrefix in Hfix. rewrite E', length_drop in Hfix.
        apply HasPrefix_split in E'. apply (f_equal String.length) in E'.
        rewrite length_append in E'. simpl in *. lia.
      * apply (f_equal String.length) in Hfix.
        unfold TrimPrefix in Hfix. rewrite E, length_drop in Hfix.
        apply HasPrefix_split in E. apply (f_equal String.length) in E.
        rewrite length_append in E. simpl in *. lia.
  - intros (Hl & Hr & H1 & H2).
    destruct (string_dec y "") as [->|Hne]; [reflexivity|].
    rewrite (normalize_nonempty y Hne). cbv zeta.
    now rewrite (TrimSpace_fixed y Hl Hr), H1, H2.
Qed.


(* ------------------------------------------------------------------ *)
(** ** The override files *)
(* ------------------------------------------------------------------ *)

Lemma Getenv_put_same (key val : string) (env : Env) :
  Getenv key (put key val env) = Some val.
Proof.
  induction env as [|[k v] env IH]; simpl.
  - now rewrite String.eqb_refl.
  - destruct (String.eqb k key) eqn:E; simpl.
    + now rewrite String.eqb_refl.
    + now rewrite E.
Qed.

Lemma Getenv_put_other (key key' val : string) (env : Env) :
  key' <> key -> Getenv key' (put key val env) = Getenv key' env.
Proof.
  intros Hne. induction env as [|[k v] env IH]; simpl.
  - destruct (String.eqb_spec key key'); [congruence | reflexivity].
  - destruct (String.eqb_spec k key) as [->|Hk]; simpl.
    + destruct (String.eqb_spec key key'); [congruence|].
      reflexivity.
    + destruct (String.eqb_spec k key'); [reflexivity | exact IH].
Qed.

Lemma Getenv_Setenv_same (key val : string) (env : Env) :
  accepted (key, val) = true -> Getenv key (Setenv key val env) = Some val.
Proof.
  unfold accepted, Setenv. simpl. intros ->. apply Getenv_put_same.
Qed.

Lemma Getenv_Setenv_other (key key' val : string) (env : Env) :
  key' <> key -> Getenv key' (Setenv key val env) = Getenv key' env.
Proof.
  intros Hne. unfold Setenv.
  destruct (validKey key && validValue val); [|reflexivity].
  now apply Getenv_put_other.
Qed.

(** Reading a key after the lines of a file were loaded. *)
Lemma Getenv_loadLines (key : string) (lines : list string) (env : Env) :
  Getenv key (fold_left loadLine lines env) =
  match lastValue key (assignments lines) with
  | Some v => Some v
  | None => Getenv key env
  end.
Proof.
  revert env. induction lines as [|text lines IH]; intros env; simpl.
  - reflexivity.
  - rewrite IH. unfold loadLine.
    destruct (parseLine text) as [[k v]|]; [|reflexivity].
    destruct (accepted (k, v)) eqn:A; simpl.
    + destruct (lastValue key (assignments lines)); [reflexivity|].
      destruct (String.eqb_spec k key) as [->|Hk].
      * now apply Getenv_Setenv_same.
      * apply Getenv_Setenv_other. congruence.
    + destruct (lastValue key (assignments lines)); [reflexivity|].
      unfold Setenv. unfold accepted in A. simpl in A. now rewrite A.
Qed.

Lemma Getenv_loadFile (key content : string) (env : Env) :
  Getenv key (loadFile env content) =
  match defines content key with
  | Some v => Some v
  | None => Getenv key env
  end.
Proof. apply Getenv_loadLines. Qed.

Lemma loadDotEnvFiles_app (fs : FileSystem) (ps qs : list string) (env : Env) :
  loadDotEnvFiles fs (ps ++ qs) env
  = loadDotEnvFiles fs qs (loadDotEnvFiles fs ps env).
Proof. unfold loadDotEnvFiles. apply fold_left_app. Qed.

(** Files that do not assign a key leave it as it was. *)
Lemma Getenv_loadDotEnvFiles_frame (fs : FileSystem) (key : string)
  (paths : list string) (env : Env) :
  (forall p c, In p paths -> fs p = Some c -> defines c key = None) ->
  Getenv key (loadDotEnvFiles fs paths env) = Getenv key env.
Proof.
  revert env. induction paths as [|p paths IH]; intros env H; [reflexivity|].
  change (loadDotEnvFiles fs (p :: paths) env)
    with (loadDotEnvFiles fs paths
            (match fs p with None => env | Some c => loadFile env c end)).
  rewrite IH by (intros q c Hq; apply H; now right).
  destruct (fs p) as [c|] eqn:E; [|reflexivity].
  rewrite Getenv_loadFile, (H p c); auto. now left.
Qed.

Lemma Getenv_loadDotEnvFiles_last (fs : FileSystem) (key v : string)
  (before after : list string) (pB cB : string) (env : Env) :
  fs pB = Some cB ->
  defines cB key = Some v ->
  (forall p c, In p after -> fs p = Some c -> defines c key = None) ->
  Getenv key (loadDotEnvFiles fs (before ++ pB :: after) env) = Some v.
Proof.
  intros HB Hv Hafter.
  rewrite loadDotEnvFiles_app.
  change (loadDotEnvFiles fs (pB :: after) ?e)
    with (loadDotEnvFiles fs after
            (match fs pB with None => e | Some c => loadFile e c end)).
  rewrite (Getenv_loadDotEnvFiles_frame fs key after _ Hafter).
  now rewrite HB, Getenv_loadFile, Hv.
Qed.

(** When every line fits the scanner's buffer, the loop sees every line of
    the file. *)
Lemma scanLines_fits (content : string) :
  forallb bufio.fits (bufio.rawLines content) = true ->
  bufio.scanLines content = map bufio.dropCR (bufio.rawLines content).
Proof.
  unfold bufio.scanLines.
  induction (bufio.rawLines content) as [|raw raws IH]; simpl;
    [reflexivity|].
  intros H. apply andb_true_iff in H. destruct H as [-> H].
  now rewrite IH.
Qed.

(** *** The parts of a line *)

Lemma Cut_spec (s : string) (sep : ascii) :
  contains s sep = true ->
  exists a b, Cut s sep = Some (a, b)
              /\ s = a ++ String sep b /\ contains a sep = false.
Proof.
  induction s as [|c s IH]; simpl; [discriminate|].
  destruct (Ascii.eqb_spec c sep) as [->|Hc]; simpl.
  - intros _. now exists "", s.
  - intros H. destruct (IH H) as (a & b & -> & E & Ha).
    exists (String c a), b. repeat split.
    + simpl. now rewrite <- E.
    + simpl. destruct (Ascii.eqb_spec c sep); [congruence | exact Ha].
Qed.

Lemma lastByte_snoc (s : string) (c : ascii) :
  lastByte (s ++ String c "") = Some c.
Proof. unfold lastByte. now rewrite reverse_app. Qed.

Lemma dropLast_snoc (s : string) (c : ascii) : dropLast (s ++ String c "") = s.
Proof.
  unfold dropLast. rewrite reverse_app. simpl. apply reverse_involutive.
Qed.

Lemma stripQuotes_pair (q : ascii) (inner : string) :
  q = dquote \/ q = squote ->
  stripQuotes (String q (inner ++ String q "")) = inner.
Proof.
  intros Hq. unfold stripQuotes.
  assert (L : (2 <=? String.length (String q (inner ++ String q "")))%nat = true).
  { apply Nat.leb_le. simpl. rewrite length_append. simpl. lia. }
  rewrite L. unfold isQuoted.
  replace (lastByte (String q (inner ++ String q ""))) with (Some q)
    by (symmetry; apply (lastByte_snoc (String q inner) q)).
  assert (Q : (Ascii.eqb q dquote && Ascii.eqb q dquote)
              || (Ascii.eqb q squote && Ascii.eqb q squote) = true)
    by (destruct Hq as [->| ->]; reflexivity).
  rewrite Q. simpl. apply dropLast_snoc.
Qed.

Lemma stripQuotes_plain (val : string) :
  isQuoted val = false -> stripQuotes val = val.
Proof. unfold stripQuotes. intros ->. now destruct (2 <=? _)%nat. Qed.

Lemma stripQuotes_short (val : string) :
  String.length val < 2 -> stripQuotes val = val.
Proof.
  unfold stripQuotes. intros H.
  apply Nat.leb_gt in H. now rewrite H.
Qed.

Lemma snoc_last (s : string) (c : ascii) (t : string) :
  reverse s = String c t -> s = reverse t ++ String c "".
Proof.
  intros H. rewrite <- (reverse_involutive s), H. apply reverse_cons.
Qed.

(** A value that [stripQuotes] changes is a quote, a text and the same
    quote again. *)
Lemma isQuoted_shape (val : string) :
  (2 <=? String.length val)%nat = true -> isQuoted val = true ->
  exists q inner, (q = dquote \/ q = squote)
                  /\ val = String q (inner ++ String q "").
Proof.
  intros Hlen Hq. unfold isQuoted, lastByte in Hq.
  destruct val as [|c0 r]; [discriminate|].
  destruct r as [|c1 r]; [discriminate|].
  destruct (reverse (String c1 r)) as [|cl t] eqn:E.
  { apply reverse_empty in E. discriminate. }
  apply snoc_last in E.
  assert (R : reverse (String c0 (String c1 r)) = String cl (t ++ String c0 "")).
  { rewrite reverse_cons, E, reverse_app. simpl.
    now rewrite reverse_involutive. }
  rewrite R in Hq.
  exists c0, (reverse t).
  assert (c0 = cl /\ (c0 = dquote \/ c0 = squote)) as [-> Hc].
  { apply orb_true_iff in Hq.
    destruct Hq as [H|H]; apply andb_true_iff in H; destruct H as [H1 H2];
      apply Ascii.eqb_eq in H1, H2; subst; auto. }
  split; [exact Hc | now rewrite E].
Qed.

(** C2 (amended): normalising the cache address a second time changes
    nothing exactly when the first result does not itself begin with a
    space or with one of the schemes [redis://] and [rediss://]; one
    scheme is stripped per pass. *)
Theorem C2_normalize_twice (x : string) :
  normalizeRedisAddress (normalizeRedisAddress x) = normalizeRedisAddress x
  <->
  leadingSpace (normalizeRedisAddress x) = false
  /\ HasPrefix (normalizeRedisAddress x) "redis://" = false
  /\ HasPrefix (normalizeRedisAddress x) "rediss://" = false.
Proof.
  rewrite normalize_fixed_iff. pose proof (normalize_trailing x). tauto.
Qed.

Lemma C2_sample_bare_address :
  normalizeRedisAddress (normalizeRedisAddress " rediss://cache:6379 ")
  = normalizeRedisAddress " rediss://cache:6379 ".
Proof.
  apply (proj2 (C2_normalize_twice " rediss://cache:6379 ")).
  repeat split; reflexivity.
Defined.

(** C2 as stated fails: an address with the scheme written twice loses one
    scheme at each pass. *)
Lemma C2_not_idempotent :
  normalizeRedisAddress (normalizeRedisAddress "redis://redis://cache:6379")
  <> normalizeRedisAddress "redis://redis://cache:6379".
Proof. vm_compute. discriminate. Qed.

(** C3: a non-empty cache address is trimmed and then loses exactly one
    leading [redis://] or [rediss://]; without such a scheme the trimmed
    address is the result; the two scenario addresses both give
    [cache:6379], and the step touches no field but the address. *)
Theorem C3_redis_address :
  (forall x r, x <> "" -> TrimSpace x = "redis://" ++ r ->
               normalizeRedisAddress x = r)
  /\ (forall x r, x <> "" -> TrimSpace x = "rediss://" ++ r ->
                  normalizeRedisAddress x = r)
  /\ (forall x, x <> "" ->
                HasPrefix (TrimSpace x) "redis://" = false ->
                HasPrefix (TrimSpace x) "rediss://" = false ->
                normalizeRedisAddress x = TrimSpace x)
  /\ normalizeRedisAddress "" = ""
  /\ normalizeRedisAddress "redis://cache:6379" = "cache:6379"
  /\ normalizeRedisAddress "rediss://cache:6379" = "cache:6379"
  /\ (forall X (c : Config.t X),
        normalizeRedis c
        = Config.mk (Config.Primary c) (Config.Server c) (Config.Database c)
            (Config.Auth c)
            (RedisConfig.mk
               (normalizeRedisAddress (RedisConfig.Address (Config.Redis c)))
               (RedisConfig.Password (Config.Redis c)))
            (Config.Integration c) (Config.Observability c) (Config.AWS c)
            (Config.Cron c)).
Proof.
  repeat split.
  - intros x r Hx E. rewrite (normalize_nonempty x Hx). cbv zeta.
    rewrite E, HasPrefix_app. apply TrimPrefix_app.
  - intros x r Hx E. rewrite (normalize_nonempty x Hx). cbv zeta.
    rewrite E.
    change (HasPrefix ("rediss://" ++ r) "redis://") with false.
    rewrite HasPrefix_app. apply TrimPrefix_app.
  - intros x Hx H1 H2. rewrite (normalize_nonempty x Hx). cbv zeta.
    now rewrite H1, H2.
Qed.

Lemma C3_sample_trimmed_url :
  normalizeRedisAddress "  redis://cache:6379 " = "cache:6379".
Proof.
  apply (proj1 C3_redis_address "  redis://cache:6379 " "cache:6379").
  - discriminate.
  - reflexivity.
Defined.

(** C6: when the override files are read in order, a key keeps the value
    of the last file that assigns it: a file read after another one wins,
    because every assignment overwrites the value the key had. *)
Theorem C6_later_file_wins :
  (forall (fs : FileSystem) (env : Env) (before after : list string)
          (pB cB key v : string),
      fs pB = Some cB ->
      defines cB key = Some v ->
      (forall p c, In p after -> fs p = Some c -> defines c key = None) ->
      Getenv key (loadDotEnvFiles fs (before ++ pB :: after) env) = Some v)
  /\ (forall (fs : FileSystem) (env : Env) (pA pB cA cB key vA vB : string),
        fs pA = Some cA -> fs pB = Some cB ->
        defines cA key = Some vA -> defines cB key = Some vB ->
        Getenv key (loadDotEnvFiles fs [pA; pB] env) = Some vB)
  /\ (forall (env : Env) (key val : string),
        accepted (key, val) = true ->
        Getenv key (Setenv key val env) = Some val).
Proof.
  split; [|split].
  - intros. now apply Getenv_loadDotEnvFiles_last with (cB := cB).
  - intros fs env pA pB cA cB key vA vB HA HB DA DB.
    apply (Getenv_loadDotEnvFiles_last fs key vB [pA] [] pB cB env HB DB).
    intros p c [].
  - intros. now apply Getenv_Setenv_same.
Qed.

Lemma C6_sample_two_files :
  Getenv "KEY"
    (loadDotEnvFiles Sample.twoFiles [".env"; "apps/backend/.env"]
       [("KEY", "ambient")])
  = Some "from_b".
Proof.
  apply (proj1 (proj2 C6_later_file_wins) Sample.twoFiles [("KEY", "ambient")]
           ".env" "apps/backend/.env" Sample.fileA Sample.fileB
           "KEY" "from_a" "from_b"); reflexivity.
Defined.

(** *** What trimming removes *)

Lemma asciiSpace_small (a : ascii) :
  asciiSpace a = true -> (byte a <= 32)%N.
Proof.
  unfold asciiSpace. destruct (byte a) as [|p]; [discriminate|].
  do 6 (destruct p as [p|p|]; try discriminate; try (intros _; lia)).
Qed.

Lemma isSpace2_bytes (a b : ascii) :
  isSpace2 a b = true ->
  (0xC2 <= byte a)%N /\ (byte a <= 0xDF)%N /\ cont (byte b) = true.
Proof.
  unfold isSpace2, decode2.
  destruct ((0xC2 <=? byte a)%N && (byte a <=? 0xDF)%N) eqn:E;
    [|discriminate].
  destruct (cont (byte b)); [|discriminate].
  apply andb_true_iff in E. destruct E as [E1 E2].
  apply N.leb_le in E1, E2. auto.
Qed.

Lemma isSpace3_bytes (a b c : ascii) :
  isSpace3 a b c = true ->
  (0xE0 <= byte a)%N /\ cont (byte b) = true /\ cont (byte c) = true.
Proof.
  unfold isSpace3, decode3.
  destruct (accept3 (byte a) (byte b)) eqn:E; [|discriminate].
  destruct (cont (byte c)); [|discriminate]. intros _.
  unfold accept3 in E. unfold cont.
  destruct (N.eqb_spec (byte a) 0xE0) as [->|H0].
  - apply andb_true_iff in E. destruct E as [E1 E2].
    apply N.leb_le in E1, E2.
    repeat split; [lia|]. apply andb_true_iff.
    split; apply N.leb_le; lia.
  - destruct (N.eqb_spec (byte a) 0xED) as [->|H1].
    + apply andb_true_iff in E. destruct E as [E1 E2].
      apply N.leb_le in E1, E2.
      repeat split; [lia|]. apply andb_true_iff.
      split; apply N.leb_le; lia.
    + apply andb_true_iff in E. destruct E as [E E3].
      apply andb_true_iff in E. destruct E as [E1 E2].
      apply N.leb_le in E1. repeat split; [lia | exact E3].
Qed.

Lemma isSpace2_lead (a b : ascii) :
  isSpace2 a b = true -> asciiSpace a = false.
Proof.
  intros H. apply isSpace2_bytes in H. destruct H as (H & _).
  destruct (asciiSpace a) eqn:E; [|reflexivity].
  apply asciiSpace_small in E. lia.
Qed.

Lemma isSpace3_lead (a b c : ascii) :
  isSpace3 a b c = true -> asciiSpace a = false /\ isSpace2 a b = false.
Proof.
  intros H. apply isSpace3_bytes in H. destruct H as (H & _). split.
  - destruct (asciiSpace a) eqn:E; [|reflexivity].
    apply asciiSpace_small in E. lia.
  - destruct (isSpace2 a b) eqn:E; [|reflexivity].
    apply isSpace2_bytes in E. lia.
Qed.

(** The bytes of the rune a text starts with. *)
Lemma Starts_rune (w1 : ascii -> bool) (w2 : ascii -> ascii -> bool)
  (w3 : ascii -> ascii -> ascii -> bool) (s r : string) :
  Starts w1 w2 w3 s r ->
  exists q, s = q ++ r /\ forall t, Starts w1 w2 w3 (q ++ t) t.
Proof.
  intros [a r' H1|a b r' H1 H2|a b c r' H1 H2 H3].
  - exists (String a ""). split; [reflexivity|]. intros t. now constructor.
  - exists (String a (String b "")). split; [reflexivity|].
    intros t. now constructor.
  - exists (String a (String b (String c ""))). split; [reflexivity|].
    intros t. now constructor.
Qed.

Lemma Blank_app (a b : string) : Blank a -> Blank b -> Blank (a ++ b).
Proof.
  intros Ha Hb. induction Ha as [|s r Hs Hr IH]; [exact Hb|].
  destruct (Starts_rune _ _ _ _ _ Hs) as (q & -> & Hq).
  rewrite append_assoc. apply (Blank_rune _ (r ++ b)); [apply Hq | exact IH].
Qed.

Lemma TrimLeftSpace_Blank (s : string) :
  exists l, s = l ++ TrimLeftSpace s /\ Blank l.
Proof.
  unfold TrimLeftSpace.
  apply (dropRunes_ind asciiSpace isSpace2 isSpace3
           (fun s t => exists l, s = l ++ t /\ Blank l)).
  - intros t _. exists "". split; [reflexivity | constructor].
  - intros t r Hr (l & E & Hl).
    destruct (Starts_rune _ _ _ _ _ Hr) as (q & -> & Hq).
    exists (q ++ l). split.
    + now rewrite append_assoc, <- E.
    + apply (Blank_rune _ l); [apply Hq | exact Hl].
Qed.

(** A rune met from the end is a rune of the text. *)
Lemma Starts_reversed (s r : string) :
  Starts asciiSpace isSpace2Rev isSpace3Rev s r ->
  exists q, s = q ++ r /\ Blank (reverse q).
Proof.
  intros [a r' H1|a b r' H1 H2|a b c r' H1 H2 H3].
  - exists (String a ""). split; [reflexivity|].
    apply (Blank_rune _ ""); [now constructor | constructor].
  - exists (String a (String b "")). split; [reflexivity|].
    unfold isSpace2Rev in H2.
    apply (Blank_rune _ ""); [|constructor].
    apply Starts2; [now apply (isSpace2_lead b a) | exact H2].
  - exists (String a (String b (String c ""))). split; [reflexivity|].
    unfold isSpace3Rev in H3.
    destruct (isSpace3_lead c b a H3) as [L1 L2].
    apply (Blank_rune _ ""); [|constructor].
    now apply Starts3.
Qed.

Lemma TrimRightSpace_Blank (s : string) :
  exists r, s = TrimRightSpace s ++ r /\ Blank r.
Proof.
  unfold TrimRightSpace, dropSpaceRev.
  assert (A : exists p,
             reverse s
             = p ++ dropRunes asciiSpace isSpace2Rev isSpace3Rev (reverse s)
             /\ Blank (reverse p)).
  { apply (dropRunes_ind asciiSpace isSpace2Rev isSpace3Rev
             (fun s t => exists p, s = p ++ t /\ Blank (reverse p))).
    - intros t _. exists "". split; [reflexivity | constructor].
    - intros t r Hr (p & E & Hp).
      destruct (Starts_reversed _ _ Hr) as (q & -> & Hq).
      exists (q ++ p). split.
      + now rewrite append_assoc, <- E.
      + rewrite reverse_app. now apply Blank_app. }
  destruct A as (p & E & Hp). exists (reverse p). split; [|exact Hp].
  rewrite <- reverse_app, <- E. symmetry. apply reverse_involutive.
Qed.

(** Trimming takes space runes from the two ends and nothing else, and
    leaves none at either end. *)
Lemma TrimSpace_Blank (s : string) :
  exists l r, s = l ++ TrimSpace s ++ r /\ Blank l /\ Blank r.
Proof.
  destruct (TrimLeftSpace_Blank s) as (l & El & Hl).
  destruct (TrimRightSpace_Blank (TrimLeftSpace s)) as (r & Er & Hr).
  exists l, r. unfold TrimSpace. now rewrite <- Er, <- El.
Qed.

(** C7: a line that is neither blank nor a comment and holds an ['='] is
    cut at its first ['=']; the key and the value are the two parts
    trimmed, a value that is a quote, a text and the same quote again
    (double or single) loses that one pair, and any other value is kept.
    Trimming a text takes space runes from its two ends and nothing else,
    leaves no space rune at either end, and leaves a text without such
    runes at its ends as it is, so nothing inside the key or the value is
    touched.  Every line of a file goes through this when each fits the
    scanner's buffer.  The line [KEY="quoted value"] gives [quoted value],
    also with blanks, a tab, a no-break space and a carriage return
    around the key and the value. *)
Theorem C7_line_assignment :
  (forall text : string,
      contains (TrimSpace text) "="%char = true ->
      exists k v,
        TrimSpace text = k ++ String "="%char v
        /\ contains k "="%char = false)
  /\ (forall text k v : string,
        HasPrefix (TrimSpace text) "#" = false ->
        TrimSpace text = k ++ String "="%char v ->
        contains k "="%char = false ->
        parseLine text = Some (TrimSpace k, stripQuotes (TrimSpace v))
        /\ forall env, loadLine env text
                       = Setenv (TrimSpace k) (stripQuotes (TrimSpace v)) env)
  /\ (forall s : string,
        leadingSpace (TrimSpace s) = false
        /\ trailingSpace (TrimSpace s) = false
        /\ exists l r, s = l ++ TrimSpace s ++ r /\ Blank l /\ Blank r)
  /\ (forall s : string,
        leadingSpace s = false -> trailingSpace s = false ->
        TrimSpace s = s)
  /\ (forall (q : ascii) (inner : string),
        q = dquote \/ q = squote ->
        stripQuotes (String q (inner ++ String q "")) = inner)
  /\ (forall val : string,
        (forall q inner, q = dquote \/ q = squote ->
                         val <> String q (inner ++ String q "")) ->
        stripQuotes val = val)
  /\ (forall env content,
        forallb bufio.fits (bufio.rawLines content) = true ->
        loadFile env content
        = fold_left loadLine (map bufio.dropCR (bufio.rawLines content)) env)
  /\ parseLine Sample.quotedLine = Some ("KEY", "quoted value")
  /\ parseLine Sample.paddedLine = Some ("KEY", "quoted value")
  /\ loadFile [] Sample.quotedLine = [("KEY", "quoted value")]
  /\ loadFile [] Sample.paddedLine = [("KEY", "quoted value")].
Proof.
  split; [|split; [|split; [|split; [|split; [|split; [|split]]]]]].
  - intros text Heq.
    destruct (Cut_spec _ _ Heq) as (k & v & _ & E & Hk).
    now exists k, v.
  - intros text k v Hc E Hk.
    assert (HC : Cut (TrimSpace text) "=" = Some (k, v)).
    { rewrite E. clear E. induction k as [|c k IH]; simpl.
      - reflexivity.
      - simpl in Hk. apply orb_false_iff in Hk. destruct Hk as [-> Hk].
        now rewrite (IH Hk). }
    assert (Hne : String.eqb (TrimSpace text) "" = false).
    { rewrite E. now destruct k. }
    assert (P : parseLine text
                = Some (TrimSpace k, stripQuotes (TrimSpace v))).
    { unfold parseLine. rewrite Hne, Hc. simpl. unfold SplitN2.
      now rewrite HC. }
    split; [exact P|].
    intros env. unfold loadLine. now rewrite P.
  - intros s. split; [apply leadingSpace_TrimSpace|].
    split; [apply trailingSpace_TrimSpace | apply TrimSpace_Blank].
  - apply TrimSpace_fixed.
  - apply stripQuotes_pair.
  - intros val H. unfold stripQuotes.
    destruct (2 <=? String.length val)%nat eqn:L; [|reflexivity].
    destruct (isQuoted val) eqn:Q; [|reflexivity].
    destruct (isQuoted_shape val L Q) as (q & inner & Hq & E).
    now elim (H q inner Hq).
  - intros env content H. unfold loadFile. now rewrite scanLines_fits.
  - repeat split; reflexivity.
Qed.

Lemma C7_sample_line :
  parseLine "  A = 'x=y'  " = Some ("A", "x=y")
  /\ forall env, loadLine env "  A = 'x=y'  " = Setenv "A" "x=y" env.
Proof.
  apply (proj1 (proj2 C7_line_assignment) "  A = 'x=y'  " "A " " 'x=y'");
    reflexivity.
Defined.

(* ------------------------------------------------------------------ *)
(** ** The key tree *)
(* ------------------------------------------------------------------ *)

Module TreeFacts.
Import koanf.

Lemma get_put_same {A} (k : string) (v : A) (m : list (string * A)) :
  get k (put k v m) = Some v.
Proof.
  induction m as [|[k' v'] m IH]; simpl.
  - now rewrite String.eqb_refl.
  - destruct (String.eqb k' k) eqn:E; simpl.
    + now rewrite String.eqb_refl.
    + now rewrite E.
Qed.

Lemma get_put_other {A} (k k' : string) (v : A) (m : list (string * A)) :
  k' <> k -> get k' (put k v m) = get k' m.
Proof.
  intros Hne. induction m as [|[k0 v0] m IH]; simpl.
  - destruct (String.eqb_spec k k'); [congruence | reflexivity].
  - destruct (String.eqb_spec k0 k) as [->|Hk]; simpl.
    + destruct (String.eqb_spec k k'); [congruence | reflexivity].
    + destruct (String.eqb_spec k0 k'); [reflexivity | exact IH].
Qed.

Lemma get_In {A} (k : string) (v : A) (m : list (string * A)) :
  get k m = Some v -> In (k, v) m.
Proof.
  induction m as [|[k' v'] m IH]; simpl; [discriminate|].
  destruct (String.eqb_spec k' k) as [->|Hk].
  - intros [= ->]. now left.
  - intros H. right. now apply IH.
Qed.


Lemma In_get {A} (k : string) (v : A) (m : list (string * A)) :
  In (k, v) m -> get k m <> None.
Proof.
  induction m as [|[k' v'] m IH]; simpl; [tauto|].
  intros [[= -> ->]|H].
  - now rewrite String.eqb_refl.
  - destruct (String.eqb k' k); [discriminate | now apply IH].
Qed.

Lemma lookup_nil (q : list string) : lookup q [] = None.
Proof. now destruct q as [|k [|k' q]]. Qed.

Lemma clear_nil (p : list string) : clear p [] = true.
Proof. now destruct p as [|k [|k' p]]. Qed.

Lemma prefixOf_refl (p : list string) : prefixOf p p = true.
Proof.
  induction p as [|k p IH]; simpl; [reflexivity|].
  now rewrite String.eqb_refl.
Qed.

Lemma comparable_sym (p q : list string) : comparable p q = comparable q p.
Proof. unfold comparable. apply orb_comm. Qed.

(** The two ways an incomparable pair of paths starts. *)
Lemma incomparable_cons (k k' : string) (p q : list string) :
  comparable (k :: p) (k' :: q) = false ->
  k <> k' \/ (k = k' /\ comparable p q = false).
Proof.
  unfold comparable. simpl.
  destruct (String.eqb_spec k k') as [->|Hk]; [|now left].
  rewrite String.eqb_refl. simpl. intros H. right. now split.
Qed.

Lemma incomparable_nonempty (p q : list string) :
  comparable p q = false -> p <> [] /\ q <> [].
Proof.
  unfold comparable. destruct p, q; simpl; try discriminate.
  intros _. split; discriminate.
Qed.

(** *** One entry *)

Lemma setPath_cons2 (k k2 : string) (r : list string) (v : string) (m : Conf) :
  setPath (k :: k2 :: r) v m =
  match get k m with
  | None => put k (Map (setPath (k2 :: r) v [])) m
  | Some (Map sub) => put k (Map (setPath (k2 :: r) v sub)) m
  | Some (Str _) => setPath (k2 :: r) v m
  end.
Proof. reflexivity. Qed.

Lemma lookup_cons2 (k k2 : string) (r : list string) (m : Conf) :
  lookup (k :: k2 :: r) m =
  match get k m with
  | Some (Map sub) => lookup (k2 :: r) sub
  | _ => None
  end.
Proof. reflexivity. Qed.

Lemma clear_cons2 (k k2 : string) (r : list string) (m : Conf) :
  clear (k :: k2 :: r) m =
  match get k m with
  | None => true
  | Some (Map sub) => clear (k2 :: r) sub
  | Some (Str _) => false
  end.
Proof. reflexivity. Qed.

Lemma lookup_one (k : string) (m : Conf) : lookup [k] m = get k m.
Proof. reflexivity. Qed.

Lemma setPath_one (k v : string) (m : Conf) : setPath [k] v m = put k (Str v) m.
Proof. reflexivity. Qed.

Lemma setPath_lookup_same (p : list string) (v : string) :
  forall m, p <> [] -> clear p m = true ->
            lookup p (setPath p v m) = Some (Str v).
Proof.
  induction p as [|k p IH]; intros m Hp Hc; [congruence|].
  destruct p as [|k' p].
  - rewrite setPath_one, lookup_one. apply get_put_same.
  - rewrite clear_cons2 in Hc. rewrite setPath_cons2, lookup_cons2.
    destruct (get k m) as [[s|sub]|] eqn:G; [discriminate| |];
      rewrite get_put_same; apply IH;
      solve [discriminate | assumption | apply clear_nil].
Qed.

Lemma lookup_head_other (k k' : string) (q : list string) (x : Value)
  (m : Conf) :
  k' <> k -> lookup (k' :: q) (put k x m) = lookup (k' :: q) m.
Proof.
  intros Hk. destruct q as [|k3 q].
  - rewrite !lookup_one. now apply get_put_other.
  - rewrite !lookup_cons2. now rewrite get_put_other.
Qed.

Lemma clear_head_other (k k' : string) (q : list string) (x : Value)
  (m : Conf) :
  k' <> k -> clear (k' :: q) (put k x m) = clear (k' :: q) m.
Proof.
  intros Hk. destruct q as [|k3 q]; [reflexivity|].
  rewrite !clear_cons2. now rewrite get_put_other.
Qed.

Lemma setPath_lookup_other (p : list string) (v : string) :
  forall q m, comparable p q = false -> clear p m = true ->
              lookup q (setPath p v m) = lookup q m.
Proof.
  induction p as [|k p IH]; intros q m Hpq Hc.
  - destruct (incomparable_nonempty _ _ Hpq) as [H _]. congruence.
  - destruct q as [|k' q].
    { destruct (incomparable_nonempty _ _ Hpq) as [_ H]. congruence. }
    destruct (incomparable_cons _ _ _ _ Hpq) as [Hk|[<- Hpq']].
    + (* the paths part at once *)
      assert (Hk' : k' <> k) by congruence.
      destruct p as [|k2 p].
      * rewrite setPath_one. now apply lookup_head_other.
      * rewrite clear_cons2 in Hc. rewrite setPath_cons2.
        destruct (get k m) as [[s|sub]|] eqn:G; [discriminate| |];
          now apply lookup_head_other.
    + (* they share their first part *)
      destruct (incomparable_nonempty _ _ Hpq') as [Hp Hq].
      destruct p as [|k2 p]; [congruence|].
      destruct q as [|k3 q]; [congruence|].
      rewrite clear_cons2 in Hc. rewrite setPath_cons2, !lookup_cons2.
      destruct (get k m) as [[s|sub]|] eqn:G; [discriminate| |];
        rewrite get_put_same.
      * now apply IH.
      * rewrite IH; [apply lookup_nil | assumption | apply clear_nil].
Qed.

Lemma setPath_clear (p : list string) (v : string) :
  forall q m, comparable p q = false -> clear p m = true ->
              clear q m = true -> clear q (setPath p v m) = true.
Proof.
  induction p as [|k p IH]; intros q m Hpq Hc Hq.
  - destruct (incomparable_nonempty _ _ Hpq) as [H _]. congruence.
  - destruct q as [|k' q]; [reflexivity|].
    destruct (incomparable_cons _ _ _ _ Hpq) as [Hk|[<- Hpq']].
    + assert (Hk' : k' <> k) by congruence.
      destruct p as [|k2 p].
      * rewrite setPath_one. now rewrite clear_head_other.
      * rewrite clear_cons2 in Hc. rewrite setPath_cons2.
        destruct (get k m) as [[s|sub]|] eqn:G; [discriminate| |];
          now rewrite clear_head_other.
    + destruct (incomparable_nonempty _ _ Hpq') as [Hp Hq'].
      destruct p as [|k2 p]; [congruence|].
      destruct q as [|k3 q]; [congruence|].
      rewrite clear_cons2 in Hc, Hq. rewrite setPath_cons2, clear_cons2.
      destruct (get k m) as [[s|sub]|] eqn:G; [discriminate| |];
        rewrite get_put_same.
      * now apply IH.
      * apply IH; [assumption | apply clear_nil | apply clear_nil].
Qed.

(** A key of the tree after an entry was a key before or is a part of the
    entry's path. *)
Lemma setPath_get_new (p : list string) (v s : string) :
  forall m, get s (setPath p v m) <> None -> get s m <> None \/ In s p.
Proof.
  induction p as [|k p IH]; intros m H; [now left|].
  assert (E : forall x, get s (put k x m) <> None ->
                        get s m <> None \/ In s (k :: p)).
  { intros x Hx. destruct (string_dec s k) as [->|Hs]; [right; now left|].
    left. now rewrite get_put_other in Hx. }
  destruct p as [|k2 p]; [now apply (E (Str v))|].
  rewrite setPath_cons2 in H.
  destruct (get k m) as [[t|sub]|] eqn:G; [|now apply (E _ H)..].
  destruct (IH m H) as [H'|H']; [now left | right; now right].
Qed.



Lemma Split_nonempty (s : string) (sep : ascii) : Split s sep <> [].
Proof.
  induction s as [|c s IH]; simpl; [discriminate|].
  destruct (Ascii.eqb c sep); [discriminate|].
  now destruct (Split s sep).
Qed.

Lemma setPath_get_other (p : list string) (v s : string) (m : Conf) :
  clear p m = true -> hd "" p <> s -> get s (setPath p v m) = get s m.
Proof.
  destruct p as [|k [|k2 p]]; simpl hd; intros Hc Hs; [reflexivity| |].
  - rewrite setPath_one. apply get_put_other. congruence.
  - rewrite clear_cons2 in Hc. rewrite setPath_cons2.
    destruct (get k m) as [[t|sub]|] eqn:G; [discriminate| |];
      apply get_put_other; congruence.
Qed.

(** *** All entries *)

Lemma pairwise_app_In {A} (r : A -> A -> bool) (l1 l2 : list A) (a x : A) :
  pairwise r (l1 ++ a :: l2) = true -> In x l1 -> r x a = true.
Proof.
  induction l1 as [|y l1 IH]; simpl; [tauto|].
  intros H [->|Hx].
  - apply andb_true_iff in H. destruct H as [H _].
    rewrite forallb_forall in H. apply H. apply in_or_app. right. now left.
  - apply andb_true_iff in H. destruct H as [_ H]. now apply IH.
Qed.

Lemma Built_nil : Built [] [].
Proof.
  repeat split.
  - intros p v [].
  - intros q _. apply clear_nil.
Qed.

Lemma Built_step (P : list (list string * string)) (m : Conf)
  (p : list string) (v : string) :
  Built P m -> p <> [] ->
  (forall p' v', In (p', v') P -> comparable p' p = false) ->
  Built (P ++ [(p, v)]) (setPath p v m).
Proof.
  intros (I1 & I2 & I3) Hp Hinc.
  assert (Hc : clear p m = true) by now apply I2.
  repeat split.
  - intros p' v' H. apply in_app_or in H. destruct H as [H|[[= <- <-]|[]]].
    + rewrite setPath_lookup_other; [now apply I1| |exact Hc].
      rewrite comparable_sym. now apply (Hinc p' v').
    + now apply setPath_lookup_same.
  - intros q Hq. apply setPath_clear.
    + apply (Hq p v). apply in_or_app. right. now left.
    + exact Hc.
    + apply I2. intros p' v' H. apply (Hq p' v'). apply in_or_app. now left.
  - intros s Hs. rewrite setPath_get_other; [|exact Hc|].
    + apply I3. intros p' v' H. apply (Hs p' v'). apply in_or_app. now left.
    + apply (Hs p v). apply in_or_app. right. now left.
Qed.

Lemma Built_fold (delim : ascii) (mp : list (string * string)) :
  forall P m,
    Built P m ->
    pairwise (fun p q => negb (comparable p q)) (map fst P ++ paths mp delim)
    = true ->
    Built (P ++ map (entry delim) mp)
      (fold_left (fun out kv => setPath (Split (fst kv) delim) (snd kv) out)
         mp m).
Proof.
  induction mp as [|[k v] mp IH]; intros P m HB Hpw; simpl.
  - now rewrite app_nil_r.
  - change (P ++ entry delim (k, v) :: map (entry delim) mp)%list
      with (P ++ [entry delim (k, v)] ++ map (entry delim) mp)%list.
    rewrite app_assoc. apply IH.
    + apply Built_step; [exact HB | apply Split_nonempty |].
      intros p' v' H. simpl in Hpw.
      apply (pairwise_app_In _ _ _ _ p') in Hpw.
      * now apply negb_true_iff in Hpw.
      * change p' with (fst (p', v')). now apply in_map.
    + rewrite map_app, <- app_assoc. exact Hpw.
Qed.

Lemma Unflatten_Built (mp : list (string * string)) (delim : ascii) :
  conflictFree mp delim = true ->
  Built (map (entry delim) mp) (Unflatten mp delim).
Proof.
  intros H. apply (Built_fold delim mp [] []); [apply Built_nil | exact H].
Qed.

(** In a tree without conflicts every entry is found at its path. *)
Lemma Unflatten_lookup (mp : list (string * string)) (delim : ascii)
  (k v : string) :
  conflictFree mp delim = true -> In (k, v) mp ->
  lookup (Split k delim) (Unflatten mp delim) = Some (Str v).
Proof.
  intros Hcf Hin. destruct (Unflatten_Built mp delim Hcf) as (I1 & _ & _).
  apply I1. change (Split k delim, v) with (entry delim (k, v)).
  now apply in_map.
Qed.

(** ... and a key stands at the top only for a section some entry is in. *)
Lemma Unflatten_get_absent (mp : list (string * string)) (delim : ascii)
  (s : string) :
  conflictFree mp delim = true ->
  (forall k v, In (k, v) mp -> hd "" (Split k delim) <> s) ->
  get s (Unflatten mp delim) = None.
Proof.
  intros Hcf H. destruct (Unflatten_Built mp delim Hcf) as (_ & _ & I3).
  apply I3. intros p v Hin. apply in_map_iff in Hin.
  destruct Hin as ([k v'] & [= <- <-] & Hin). now apply (H k v').
Qed.

Lemma Unflatten_key_head (mp : list (string * string)) (delim : ascii)
  (s : string) :
  conflictFree mp delim = true ->
  get s (Unflatten mp delim) <> None ->
  exists k v, In (k, v) mp /\ hd "" (Split k delim) = s.
Proof.
  intros Hcf G.
  destruct (existsb (fun kv => String.eqb (hd "" (Split (fst kv) delim)) s) mp)
    eqn:E.
  - apply existsb_exists in E. destruct E as ([k v] & Hin & E).
    apply String.eqb_eq in E. now exists k, v.
  - elim G. apply Unflatten_get_absent; [exact Hcf|].
    intros k v Hin Hs.
    assert (T : existsb
                  (fun kv => String.eqb (hd "" (Split (fst kv) delim)) s) mp
                = true).
    { apply existsb_exists. exists (k, v). split; [exact Hin|].
      simpl. now apply String.eqb_eq. }
    congruence.
Qed.

(** Whatever the conflicts, a key at the top is a part of some entry's
    path, and the first part of every path is a key at the top. *)
Lemma fold_get_mentioned (delim : ascii) (s : string)
  (mp : list (string * string)) :
  forall m,
    get s (fold_left (fun out kv => setPath (Split (fst kv) delim) (snd kv) out)
             mp m) <> None ->
    get s m <> None \/ exists k v, In (k, v) mp /\ In s (Split k delim).
Proof.
  induction mp as [|[k v] mp IH]; intros m H; simpl in H; [now left|].
  destruct (IH _ H) as [H'|(k' & v' & Hin & Hs)].
  - destruct (setPath_get_new _ _ _ _ H') as [G|G]; [now left|].
    right. exists k, v. split; [now left | exact G].
  - right. exists k', v'. split; [now right | exact Hs].
Qed.

Lemma Unflatten_get_mentioned (mp : list (string * string)) (delim : ascii)
  (s : string) :
  get s (Unflatten mp delim) <> None ->
  exists k v, In (k, v) mp /\ In s (Split k delim).
Proof.
  intros H. destruct (fold_get_mentioned delim s mp [] H) as [G|G];
    [now elim G | exact G].
Qed.



(** *** The order of the entries *)

Lemma forallb_perm {A} (f : A -> bool) (l l' : list A) :
  Permutation l l' -> forallb f l = forallb f l'.
Proof.
  induction 1 as [|x l l' _ IH|x y l|l l' l'' _ IH1 _ IH2]; simpl.
  - reflexivity.
  - now rewrite IH.
  - destruct (f x), (f y); reflexivity.
  - now rewrite IH1.
Qed.

Lemma pairwise_perm {A} (r : A -> A -> bool) (l l' : list A) :
  (forall a b, r a b = r b a) ->
  Permutation l l' -> pairwise r l = pairwise r l'.
Proof.
  intros Hsym.
  induction 1 as [|x l l' HP IH|x y l|l l' l'' _ IH1 _ IH2]; simpl.
  - reflexivity.
  - now rewrite IH, (forallb_perm (r x) l l' HP).
  - rewrite (Hsym y x).
    destruct (r x y), (forallb (r x) l), (forallb (r y) l); reflexivity.
  - now rewrite IH1.
Qed.

Lemma conflictFree_perm (mp mp' : list (string * string)) (delim : ascii) :
  Permutation mp mp' -> conflictFree mp delim = conflictFree mp' delim.
Proof.
  intros HP. unfold conflictFree, paths. apply pairwise_perm.
  - intros a b. now rewrite comparable_sym.
  - now apply Permutation_map.
Qed.

(** *** The provider *)

Lemma Read_frame (pre : string) (cb : string -> string) (key : string)
  (env : Env) :
  forall mp,
    (forall k v, In (k, v) env -> HasPrefix k pre = true -> cb k <> key) ->
    get key (fold_left (fun mp kv =>
                          if HasPrefix (fst kv) pre then
                            let key := cb (fst kv) in
                            if String.eqb key "" then mp
                            else put key (snd kv) mp
                          else mp) env mp)
    = get key mp.
Proof.
  induction env as [|[k v] env IH]; intros mp H; simpl; [reflexivity|].
  rewrite IH by (intros k' v' Hin; apply (H k' v'); now right).
  destruct (HasPrefix k pre) eqn:E; [|reflexivity].
  destruct (String.eqb (cb k) ""); [reflexivity|].
  apply get_put_other. intros Heq. apply (H k v); [now left | exact E |].
  now symmetry.
Qed.

(** The value collected under a key is that of the last variable the
    callback sends to it. *)
Lemma Read_last (pre : string) (cb : string -> string) (before after : Env)
  (k v : string) :
  HasPrefix k pre = true -> cb k <> "" ->
  (forall k' v', In (k', v') after -> HasPrefix k' pre = true ->
                 cb k' <> cb k) ->
  get (cb k) (Read pre cb (before ++ (k, v) :: after)%list) = Some v.
Proof.
  intros Hp Hk Hafter. unfold Read. rewrite fold_left_app. simpl.
  rewrite Read_frame by exact Hafter.
  rewrite Hp. apply String.eqb_neq in Hk. rewrite Hk.
  apply get_put_same.
Qed.

End TreeFacts.

Import TreeFacts.

(** *** The keys of the maps below the top *)




(* ------------------------------------------------------------------ *)
(** ** Population, validation and the steps of [LoadConfig] *)
(* ------------------------------------------------------------------ *)

Section ConfigFacts.

Variable L : Externals.
Local Abbreviation X := (ObsSettings L).

(** *** Decoding *)

Lemma Unmarshal_sections (m : koanf.Conf) (c : Config.t X) :
  Unmarshal L m = Some c ->
  field L m "primary" Primary.zero (asStruct (decodePrimary L))
  = Some (Config.Primary c)
  /\ field L m "server" ServerConfig.zero (asStruct (decodeServer L))
     = Some (Config.Server c)
  /\ field L m "database" DatabaseConfig.zero (asStruct (decodeDatabase L))
     = Some (Config.Database c)
  /\ field L m "auth" AuthConfig.zero (asStruct (decodeAuth L))
     = Some (Config.Auth c)
  /\ field L m "redis" RedisConfig.zero (asStruct (decodeRedis L))
     = Some (Config.Redis c)
  /\ field L m "integration" IntegrationConfig.zero (asStruct (decodeIntegration L))
     = Some (Config.Integration c)
  /\ field L m "observability" None (asPointer (decodeObservability L))
     = Some (Config.Observability c)
  /\ field L m "aws" AWSConfig.zero (asStruct (decodeAWS L)) = Some (Config.AWS c)
  /\ field L m "cron" None (asPointer (decodeCron L)) = Some (Config.Cron c).
Proof.
  unfold Unmarshal. intros H. repeat bind_inv H.
  injection H as <-. simpl. repeat split; reflexivity.
Qed.

Lemma decodePrimary_fields (m : koanf.Conf) (p : Primary.t) :
  decodePrimary L m = Some p ->
  field L m "env" "" asString = Some (Primary.Env p).
Proof.
  unfold decodePrimary. intros H. repeat bind_inv H. now injection H as <-.
Qed.

Lemma decodeServer_fields (m : koanf.Conf) (s : ServerConfig.t) :
  decodeServer L m = Some s ->
  field L m "port" "" asString = Some (ServerConfig.Port s)
  /\ field L m "read_timeout" 0%Z (asInt L) = Some (ServerConfig.ReadTimeout s)
  /\ field L m "write_timeout" 0%Z (asInt L)
     = Some (ServerConfig.WriteTimeout s)
  /\ field L m "idle_timeout" 0%Z (asInt L) = Some (ServerConfig.IdleTimeout s).
Proof.
  unfold decodeServer. intros H. repeat bind_inv H.
  injection H as <-. simpl. repeat split; reflexivity.
Qed.

Lemma decodeDatabase_fields (m : koanf.Conf) (d : DatabaseConfig.t) :
  decodeDatabase L m = Some d ->
  field L m "host" "" asString = Some (DatabaseConfig.Host d)
  /\ field L m "user" "" asString = Some (DatabaseConfig.User d)
  /\ field L m "password" "" asString = Some (DatabaseConfig.Password d)
  /\ field L m "name" "" asString = Some (DatabaseConfig.Name d)
  /\ field L m "ssl_mode" "" asString = Some (DatabaseConfig.SSLMode d)
  /\ field L m "port" 0%Z (asInt L) = Some (DatabaseConfig.Port d)
  /\ field L m "max_open_conns" 0%Z (asInt L)
     = Some (DatabaseConfig.MaxOpenConns d)
  /\ field L m "max_idle_conns" 0%Z (asInt L)
     = Some (DatabaseConfig.MaxIdleConns d)
  /\ field L m "conn_max_lifetime" 0%Z (asInt L)
     = Some (DatabaseConfig.ConnMaxLifetime d)
  /\ field L m "conn_max_idle_time" 0%Z (asInt L)
     = Some (DatabaseConfig.ConnMaxIdleTime d).
Proof.
  unfold decodeDatabase. intros H. repeat bind_inv H.
  injection H as <-. simpl. repeat split; reflexivity.
Qed.

Lemma decodeAuth_fields (m : koanf.Conf) (a : AuthConfig.t) :
  decodeAuth L m = Some a ->
  field L m "secret_key" "" asString = Some (AuthConfig.SecretKey a).
Proof.
  unfold decodeAuth. intros H. repeat bind_inv H. now injection H as <-.
Qed.

Lemma decodeRedis_fields (m : koanf.Conf) (r : RedisConfig.t) :
  decodeRedis L m = Some r ->
  field L m "address" "" asString = Some (RedisConfig.Address r)
  /\ field L m "password" "" asString = Some (RedisConfig.Password r).
Proof.
  unfold decodeRedis. intros H. repeat bind_inv H.
  injection H as <-. simpl. split; reflexivity.
Qed.

Lemma decodeIntegration_fields (m : koanf.Conf) (i : IntegrationConfig.t) :
  decodeIntegration L m = Some i ->
  field L m "resend_api_key" "" asString
  = Some (IntegrationConfig.ResendAPIKey i).
Proof.
  unfold decodeIntegration. intros H. repeat bind_inv H.
  now injection H as <-.
Qed.

Lemma decodeAWS_fields (m : koanf.Conf) (a : AWSConfig.t) :
  decodeAWS L m = Some a ->
  field L m "region" "" asString = Some (AWSConfig.Region a)
  /\ field L m "access_key_id" "" asString = Some (AWSConfig.AccessKeyID a)
  /\ field L m "secret_access_key" "" asString
     = Some (AWSConfig.SecretAccessKey a)
  /\ field L m "upload_bucket" "" asString = Some (AWSConfig.UploadBucket a)
  /\ field L m "endpoint_url" "" asString = Some (AWSConfig.EndpointURL a).
Proof.
  unfold decodeAWS. intros H. repeat bind_inv H.
  injection H as <-. simpl. repeat split; reflexivity.
Qed.

Lemma decodeServer_cors (m : koanf.Conf) (s : ServerConfig.t) :
  decodeServer L m = Some s ->
  field L m "cors_allowed_origins" None (asStrings L)
  = Some (ServerConfig.CORSAllowedOrigins s).
Proof.
  unfold decodeServer. intros H. repeat bind_inv H. now injection H as <-.
Qed.

Lemma decodeCron_fields (m : koanf.Conf) (k : CronConfig.t)
  (f : string) (proj : CronConfig.t -> Z) :
  decodeCron L m = Some k -> In (f, proj) cronFields ->
  field L m f 0%Z (asInt L) = Some (proj k).
Proof.
  unfold decodeCron. intros H Hin. repeat bind_inv H.
  injection H as <-. simpl in Hin.
  repeat (destruct Hin as [Hin|Hin];
          [injection Hin as <- <-; assumption|]).
  destruct Hin.
Qed.

(** *** Looking a field up *)

Lemma names_refl (tag : string) : names L tag tag = true.
Proof. unfold names. now rewrite String.eqb_refl. Qed.

Lemma findField_get (m : koanf.Conf) (tag : string) (v : koanf.Value) :
  koanf.get tag m = Some v -> findField L m tag = Some v.
Proof. unfold findField. now intros ->. Qed.

Lemma findField_none (m : koanf.Conf) (tag : string) :
  (forall k v, In (k, v) m -> names L k tag = false) ->
  findField L m tag = None.
Proof.
  intros H. unfold findField.
  destruct (koanf.get tag m) as [v|] eqn:G.
  - apply get_In in G. specialize (H _ _ G).
    rewrite (names_refl tag) in H. discriminate.
  - destruct (find (matchName L tag) m) as [[k v]|] eqn:F; [|reflexivity].
    apply find_some in F. destruct F as [Hin Hm].
    specialize (H k v Hin). unfold names in H. unfold matchName in Hm.
    simpl in Hm. rewrite Hm, orb_true_r in H. discriminate.
Qed.


(** What is found at a section and a field of the tree is what the field
    of the decoded section was decoded from. *)
Lemma section_value {A B} (m : koanf.Conf) (sec f : string) (zero a : A)
  (dec : koanf.Conf -> option A) (zero' : B)
  (dec' : koanf.Value -> option B) (proj : A -> B) (v : string) :
  field L m sec zero (asStruct dec) = Some a ->
  (forall sub, dec sub = Some a -> field L sub f zero' dec' = Some (proj a)) ->
  koanf.lookup [sec; f] m = Some (koanf.Str v) ->
  dec' (koanf.Str v) = Some (proj a).
Proof.
  intros Hsec Hf Hl. rewrite lookup_cons2 in Hl.
  destruct (koanf.get sec m) as [[s|sub]|] eqn:G; try discriminate.
  rewrite lookup_one in Hl.
  unfold field in Hsec. rewrite (findField_get _ _ _ G) in Hsec.
  simpl in Hsec. specialize (Hf sub Hsec).
  unfold field in Hf. now rewrite (findField_get _ _ _ Hl) in Hf.
Qed.

Lemma section_string {A} (m : koanf.Conf) (sec f : string) (zero a : A)
  (dec : koanf.Conf -> option A) (proj : A -> string) (v : string) :
  field L m sec zero (asStruct dec) = Some a ->
  (forall sub, dec sub = Some a -> field L sub f "" asString = Some (proj a)) ->
  koanf.lookup [sec; f] m = Some (koanf.Str v) ->
  proj a = v.
Proof.
  intros Hsec Hf Hl.
  pose proof (section_value m sec f zero a dec "" asString proj v Hsec Hf Hl)
    as H.
  simpl in H. now injection H.
Qed.

Lemma Unmarshal_stringFields (m : koanf.Conf) (c : Config.t X)
  (sec f v : string) (proj : Config.t X -> string) :
  Unmarshal L m = Some c ->
  In (sec, f, proj) (stringFields L) ->
  koanf.lookup [sec; f] m = Some (koanf.Str v) ->
  proj c = v.
Proof.
  intros HU Hin Hl.
  destruct (Unmarshal_sections m c HU)
    as (Hp & Hs & Hd & Ha & Hr & Hi & _ & Hw & _).
  simpl in Hin.
  repeat (destruct Hin as [Hin|Hin];
          [injection Hin as <- <- <-;
           eapply section_string; [eassumption| |exact Hl];
           intros sub Hsub;
           first [ apply decodePrimary_fields in Hsub
                 | apply decodeServer_fields in Hsub
                 | apply decodeDatabase_fields in Hsub
                 | apply decodeAuth_fields in Hsub
                 | apply decodeRedis_fields in Hsub
                 | apply decodeIntegration_fields in Hsub
                 | apply decodeAWS_fields in Hsub ];
           tauto |]).
  destruct Hin.
Qed.

Lemma Unmarshal_intFields (m : koanf.Conf) (c : Config.t X)
  (sec f v : string) (proj : Config.t X -> Z) :
  Unmarshal L m = Some c ->
  In (sec, f, proj) (intFields L) ->
  koanf.lookup [sec; f] m = Some (koanf.Str v) ->
  decodeInt L v = Some (proj c).
Proof.
  intros HU Hin Hl.
  destruct (Unmarshal_sections m c HU) as (_ & Hs & Hd & _).
  change (decodeInt L v) with (asInt L (koanf.Str v)).
  simpl in Hin.
  repeat (destruct Hin as [Hin|Hin];
          [injection Hin as <- <- <-;
           eapply (section_value m _ _ _ _ _ 0%Z (asInt L));
             [eassumption| |exact Hl];
           intros sub Hsub;
           first [ apply decodeServer_fields in Hsub
                 | apply decodeDatabase_fields in Hsub ];
           tauto |]).
  destruct Hin.
Qed.

(** The same for a section held by pointer, which is then allocated. *)
Lemma pointer_value {A B} (m : koanf.Conf) (sec f : string) (a : option A)
  (dec : koanf.Conf -> option A) (zero' : B)
  (dec' : koanf.Value -> option B) (proj : A -> B) (v : string) :
  field L m sec None (asPointer dec) = Some a ->
  (forall sub x, dec sub = Some x ->
                 field L sub f zero' dec' = Some (proj x)) ->
  koanf.lookup [sec; f] m = Some (koanf.Str v) ->
  exists x, a = Some x /\ dec' (koanf.Str v) = Some (proj x).
Proof.
  intros Hsec Hf Hl. rewrite lookup_cons2 in Hl.
  destruct (koanf.get sec m) as [[s|sub]|] eqn:G; try discriminate.
  rewrite lookup_one in Hl.
  unfold field in Hsec. rewrite (findField_get _ _ _ G) in Hsec.
  simpl in Hsec. destruct (dec sub) as [x|] eqn:D; [|discriminate].
  injection Hsec as <-. exists x. split; [reflexivity|].
  specialize (Hf sub x D). unfold field in Hf.
  now rewrite (findField_get _ _ _ Hl) in Hf.
Qed.

Lemma Unmarshal_cors (m : koanf.Conf) (c : Config.t X) (v : string) :
  Unmarshal L m = Some c ->
  koanf.lookup ["server"; "cors_allowed_origins"] m = Some (koanf.Str v) ->
  exists l, decodeStrings L v = Some l
            /\ ServerConfig.CORSAllowedOrigins (Config.Server c) = Some l.
Proof.
  intros HU Hl.
  destruct (Unmarshal_sections m c HU) as (_ & Hs & _).
  pose proof (section_value m "server" "cors_allowed_origins" _ _ _ None
                (asStrings L) ServerConfig.CORSAllowedOrigins v Hs
                (fun sub => decodeServer_cors sub _) Hl) as H.
  simpl in H. destruct (decodeStrings L v) as [l|]; [|discriminate].
  exists l. split; [reflexivity|]. now injection H.
Qed.

Lemma Unmarshal_cronFields (m : koanf.Conf) (c : Config.t X)
  (f v : string) (proj : CronConfig.t -> Z) :
  Unmarshal L m = Some c ->
  In (f, proj) cronFields ->
  koanf.lookup ["cron"; f] m = Some (koanf.Str v) ->
  exists k, Config.Cron c = Some k /\ decodeInt L v = Some (proj k).
Proof.
  intros HU Hin Hl.
  destruct (Unmarshal_sections m c HU) as (_&_&_&_&_&_&_&_&Hc).
  apply (pointer_value m "cron" f _ _ 0%Z (asInt L) proj v Hc); [|exact Hl].
  intros sub x D. now apply decodeCron_fields.
Qed.


(** The pointer of an optional section is nil exactly when the tree has
    no key for the section. *)
Lemma pointer_nil {A} (m : koanf.Conf) (tag : string)
  (dec : koanf.Conf -> option A) (r : option A) :
  field L m tag None (asPointer dec) = Some r ->
  (r = None <-> findField L m tag = None).
Proof.
  unfold field. destruct (findField L m tag) as [[s|sub]|]; simpl.
  - discriminate.
  - destruct (dec sub); [|discriminate]. intros [= <-]. split; discriminate.
  - intros [= <-]. tauto.
Qed.

Lemma Unmarshal_cron_nil (m : koanf.Conf) (c : Config.t X) :
  Unmarshal L m = Some c ->
  (Config.Cron c = None <-> findField L m "cron" = None).
Proof.
  intros HU. destruct (Unmarshal_sections m c HU) as (_&_&_&_&_&_&_&_&H).
  now apply pointer_nil in H.
Qed.


(** *** Sections supplied and omitted *)

(** The entries ranged over are the entries collected. *)
Lemma ranged_In (env : Env) (kv : string * string) :
  In kv (rangeOrder L (collected L env)) <-> In kv (collected L env).
Proof.
  split; apply Permutation_in;
    [|apply Permutation_sym]; apply rangeOrder_perm.
Qed.

Lemma ranged_conflictFree (env : Env) :
  koanf.conflictFree (rangeOrder L (collected L env)) "." = conflictFree L env.
Proof. apply conflictFree_perm, rangeOrder_perm. Qed.


Lemma supplies_false (env : Env) (section : string) :
  conflictFree L env = true -> supplies L env section = false ->
  findField L (Load L env) section = None.
Proof.
  unfold supplies, Load. intros Hcf H.
  rewrite <- ranged_conflictFree in Hcf.
  apply findField_none. intros k v Hin.
  destruct (names L k section) eqn:N; [exfalso | reflexivity].
  apply In_get in Hin.
  destruct (Unflatten_key_head _ _ _ Hcf Hin) as (key & w & Hkey & Hhd).
  apply ranged_In in Hkey.
  assert (T : existsb
                (fun kv => names L (hd "" (Split (fst kv) ".")) section)
                (collected L env) = true).
  { apply existsb_exists. exists (key, w). split; [exact Hkey|].
    simpl. now rewrite Hhd. }
  congruence.
Qed.

Lemma mentions_false (env : Env) (word : string) :
  mentions L env word = false -> findField L (Load L env) word = None.
Proof.
  unfold mentions, Load. intros H.
  apply findField_none. intros k v Hin.
  destruct (names L k word) eqn:N; [exfalso | reflexivity].
  apply In_get in Hin. apply Unflatten_get_mentioned in Hin.
  destruct Hin as (key & w & Hkey & Hpart). apply ranged_In in Hkey.
  assert (T : existsb
                (fun kv => existsb (fun part => names L part word)
                             (Split (fst kv) "."))
                (collected L env) = true).
  { apply existsb_exists. exists (key, w). split; [exact Hkey|].
    apply existsb_exists. exists k. now split. }
  congruence.
Qed.



(** *** The steps after validation *)

Lemma finish_Returns (c c' : Config.t X) :
  finish L c = Returns c' ->
  validateStruct L c = []
  /\ c' = injectCron (normalizeRedis (injectObservability L c)).
Proof.
  unfold finish. destruct (validateStruct L c); [|discriminate].
  destruct (Validate L _); [discriminate|]. intros [= <-]. now split.
Qed.

Lemma LoadConfig_Returns (fs : FileSystem) (env : Env) (c' : Config.t X) :
  LoadConfig L fs env = Returns c' ->
  exists c, populate L (overlaid fs env) = Some c
            /\ validateStruct L c = []
            /\ c' = injectCron (normalizeRedis (injectObservability L c)).
Proof.
  unfold LoadConfig. destruct (populate L (overlaid fs env)) as [c|];
    [|discriminate].
  intros H. exists c. split; [reflexivity | now apply finish_Returns].
Qed.



Lemma LoadConfig_cron (fs : FileSystem) (env : Env) (c' : Config.t X) :
  LoadConfig L fs env = Returns c' ->
  exists c, populate L (overlaid fs env) = Some c
            /\ Config.Cron c' = match Config.Cron c with
                                | None => Some DefaultCronConfig
                                | Some k => Some k
                                end.
Proof.
  intros H. destruct (LoadConfig_Returns fs env c' H) as (c & HP & _ & ->).
  exists c. split; [exact HP|].
  unfold injectCron.
  change (Config.Cron (normalizeRedis (injectObservability L c)))
    with (Config.Cron c).
  destruct (Config.Cron c) eqn:E; [exact E | reflexivity].
Qed.

Lemma LoadConfig_cron_default (fs : FileSystem) (env : Env) (c' : Config.t X) :
  LoadConfig L fs env = Returns c' ->
  findField L (Load L (overlaid fs env)) "cron" = None ->
  Config.Cron c' = Some DefaultCronConfig.
Proof.
  intros H G. destruct (LoadConfig_cron fs env c' H) as (c & HP & ->).
  apply (Unmarshal_cron_nil _ c HP) in G. now rewrite G.
Qed.

(** *** Validation *)

Lemma required_nil (ns : string) (b : bool) : b = true -> required ns b = [].
Proof. now intros ->. Qed.

Lemma reqString_nil (ns s : string) : s <> "" -> reqString ns s = [].
Proof.
  intros H. apply required_nil. apply negb_true_iff. now apply String.eqb_neq.
Qed.

Lemma reqInt_nil (ns : string) (n : Z) : n <> 0%Z -> reqInt ns n = [].
Proof.
  intros H. apply required_nil. apply negb_true_iff. now apply Z.eqb_neq.
Qed.

Lemma reqSlice_nil (ns : string) (l : StringSlice) :
  l <> None -> reqSlice ns l = [].
Proof. intros H. apply required_nil. now destruct l. Qed.

Lemma validateStruct_nil (c : Config.t X) :
  requiredPresent L c -> validateStruct L c = [].
Proof.
  unfold requiredPresent. intros H.
  repeat match type of H with _ /\ _ => destruct H as [? H] end.
  unfold validateStruct, validatePrimary, validateServer, validateDatabase,
    validateAuth, validateRedis, validateIntegration, validateAWS.
  rewrite !reqString_nil, !reqInt_nil, !reqSlice_nil by assumption.
  simpl. destruct (Config.Observability c) as [o|]; [|reflexivity].
  now rewrite (H o eq_refl).
Qed.

Lemma validateStruct_name (c : Config.t X) :
  DatabaseConfig.Name (Config.Database c) = "" ->
  In (mkError "Config.Database.Name" "required") (validateStruct L c).
Proof.
  intros H. unfold validateStruct, validateDatabase. rewrite H.
  rewrite !in_app_iff. simpl. tauto.
Qed.

End ConfigFacts.

(* ------------------------------------------------------------------ *)
(** ** The claims about [LoadConfig] *)
(* ------------------------------------------------------------------ *)

Section Claims.

Variable L : Externals.
Local Abbreviation X := (ObsSettings L).

Lemma envKey_prefixed (name : string) :
  envKey L ("TASKER_" ++ name) = ToLower (unicodeLower L) name.
Proof. unfold envKey. now rewrite TrimPrefix_app. Qed.

Lemma collected_lookup (env : Env) (key v : string) :
  conflictFree L env = true -> In (key, v) (collected L env) ->
  koanf.lookup (Split key ".") (Load L env) = Some (koanf.Str v).
Proof.
  intros Hcf Hin. unfold Load. apply Unflatten_lookup.
  - now rewrite ranged_conflictFree.
  - now apply ranged_In.
Qed.

(** The value of a variable is found in the tree at the dotted path of its
    key. *)
Lemma variable_lookup (before after : Env) (name v : string) :
  (forall k' v', In (k', v') after -> HasPrefix k' "TASKER_" = true ->
                 envKey L k' <> envKey L ("TASKER_" ++ name)) ->
  conflictFree L (before ++ (("TASKER_" ++ name)%string, v) :: after)%list
  = true ->
  ToLower (unicodeLower L) name <> "" ->
  koanf.lookup (Split (ToLower (unicodeLower L) name) ".")
    (Load L (before ++ (("TASKER_" ++ name)%string, v) :: after)%list)
  = Some (koanf.Str v).
Proof.
  intros Hlast Hcf Hne.
  set (env := (before ++ (("TASKER_" ++ name)%string, v) :: after)%list) in *.
  assert (Hget : koanf.get (envKey L ("TASKER_" ++ name)) (collected L env)
                 = Some v).
  { apply Read_last; [apply HasPrefix_app | | exact Hlast].
    now rewrite envKey_prefixed. }
  apply get_In in Hget. apply (collected_lookup env _ _ Hcf) in Hget.
  now rewrite envKey_prefixed in Hget.
Qed.

(** C1 (amended): a variable whose name is [TASKER_] and a rest is
    collected under the rest in lower case, names that differ in letter
    case only sharing a key; the value collected under a key is that of
    the last variable of the environment with that key.  The key is cut
    into a path at its dots, not at its underscores: when no collected
    key is the dotted beginning of another, the value is found at that
    path of the tree, and a population that succeeds leaves it in the
    field that the two parts of the path address, as it is in a string
    field and decoded in an integer or list field; this holds of every
    field of the sections whose structs are in the sources.  With every
    other required field supplied, [TASKER_SERVER.PORT=8080] gives a
    configuration whose server port is ["8080"], a later
    [TASKER_Server.Port=9090] makes it ["9090"], and the key of
    [TASKER_SERVER_PORT] is the one-part path [server_port]. *)
Theorem C1_dotted_variable_names :
  (forall name, envKey L ("TASKER_" ++ name) = ToLower (unicodeLower L) name)
  /\ (forall (before after : Env) (name v : string),
        ToLower (unicodeLower L) name <> "" ->
        (forall k' v', In (k', v') after -> HasPrefix k' "TASKER_" = true ->
                       envKey L k' <> envKey L ("TASKER_" ++ name)) ->
        In (ToLower (unicodeLower L) name, v)
          (collected L
             (before ++ (("TASKER_" ++ name)%string, v) :: after)%list))
  /\ (forall (env : Env) (key v : string),
        conflictFree L env = true -> In (key, v) (collected L env) ->
        koanf.lookup (Split key ".") (Load L env) = Some (koanf.Str v))
  /\ (forall (env : Env) (key v sec f : string) (c : Config.t X),
        conflictFree L env = true -> In (key, v) (collected L env) ->
        Split key "." = [sec; f] ->
        populate L env = Some c ->
        (forall proj, In (sec, f, proj) (stringFields L) -> proj c = v)
        /\ (forall proj, In (sec, f, proj) (intFields L) ->
                         decodeInt L v = Some (proj c))
        /\ ((sec, f) = ("server", "cors_allowed_origins") ->
            exists l,
              decodeStrings L v = Some l
              /\ ServerConfig.CORSAllowedOrigins (Config.Server c) = Some l)
        /\ (sec = "cron" ->
            forall proj, In (f, proj) cronFields ->
                         exists k, Config.Cron c = Some k
                                   /\ decodeInt L v = Some (proj k)))
  /\ Split (envKey L "TASKER_SERVER_PORT") "." = ["server_port"]
  /\ (exists c, LoadConfig Sample.lib Sample.noFiles Sample.dottedEnv
                = Returns c
                /\ ServerConfig.Port (Config.Server c) = "8080")
  /\ (exists c, LoadConfig Sample.lib Sample.noFiles Cases.twicePortEnv
                = Returns c
                /\ ServerConfig.Port (Config.Server c) = "9090").
Proof.
  split; [exact envKey_prefixed|].
  split; [|split; [exact collected_lookup|]].
  - intros before after name v Hne Hlast.
    apply get_In. rewrite <- (envKey_prefixed name).
    apply Read_last; [apply HasPrefix_app | | exact Hlast].
    now rewrite envKey_prefixed.
  - split; [|split; [reflexivity | split]].
    + intros env key v sec f c Hcf Hin Hpath Hpop.
      pose proof (collected_lookup env key v Hcf Hin) as Hl.
      rewrite Hpath in Hl. unfold populate in Hpop.
      split; [|split; [|split]].
      * intros proj Hfield.
        exact (Unmarshal_stringFields L _ c sec f v proj Hpop Hfield Hl).
      * intros proj Hfield.
        exact (Unmarshal_intFields L _ c sec f v proj Hpop Hfield Hl).
      * intros [= -> ->]. exact (Unmarshal_cors L _ c v Hpop Hl).
      * intros -> proj Hfield.
        exact (Unmarshal_cronFields L _ c f v proj Hpop Hfield Hl).
    + eexists. split; [vm_compute; reflexivity | reflexivity].
    + eexists. split; [vm_compute; reflexivity | reflexivity].
Qed.


(** C5: once the Observability section is defaulted, its service name is
    set to ["tasker"] and its environment to the environment of the
    Primary section, whatever the section held: every configuration that
    [LoadConfig] returns has these two values. *)
Theorem C5_identity_overwritten :
  (forall c : Config.t X,
      Config.Observability (injectObservability L c)
      = Some (ObservabilityConfig.mk "tasker" (Primary.Env (Config.Primary c))
                (ObservabilityConfig.Settings (observabilityOf L c))))
  /\ (forall (fs : FileSystem) (env : Env) (c' : Config.t X),
        LoadConfig L fs env = Returns c' ->
        exists o, Config.Observability c' = Some o
                  /\ ObservabilityConfig.ServiceName o = "tasker"
                  /\ ObservabilityConfig.Environment o
                     = Primary.Env (Config.Primary c')).
Proof.
  split.
  - intros c. unfold injectObservability, observabilityOf.
    now destruct (Config.Observability c).
  - intros fs env c' H.
    destruct (LoadConfig_Returns L fs env c' H) as (c & _ & _ & ->).
    eexists. split.
    + unfold injectCron.
      destruct (Config.Cron (normalizeRedis (injectObservability L c)));
        reflexivity.
    + split; [reflexivity|].
      unfold injectCron.
      destruct (Config.Cron (normalizeRedis (injectObservability L c)));
        reflexivity.
Qed.

(** C8: when [database.name] is empty after population, [LoadConfig] ends
    at the validation with a fatal log whose error names the field
    [Config.Database.Name] and its [required] tag, and returns no
    configuration; the field is empty when the tree has no value for it. *)
Theorem C8_missing_database_name :
  (forall (fs : FileSystem) (env : Env) (c : Config.t X),
      populate L (overlaid fs env) = Some c ->
      DatabaseConfig.Name (Config.Database c) = "" ->
      (exists errs,
          LoadConfig L fs env
          = Fatal "config validation failed" (ValidationErrors errs)
          /\ In (mkError "Config.Database.Name" "required") errs)
      /\ forall c', LoadConfig L fs env <> Returns c')
  /\ (forall (env : Env) (c : Config.t X),
        populate L env = Some c ->
        (forall sub, findField L (Load L env) "database" = Some (koanf.Map sub)
                     -> findField L sub "name" = None) ->
        DatabaseConfig.Name (Config.Database c) = "").
Proof.
  split.
  - intros fs env c HP Hname.
    pose proof (validateStruct_name L c Hname) as Hin.
    assert (E : exists errs,
               LoadConfig L fs env
               = Fatal "config validation failed" (ValidationErrors errs)
               /\ In (mkError "Config.Database.Name" "required") errs).
    { unfold LoadConfig. rewrite HP. unfold finish.
      destruct (validateStruct L c) as [|e errs]; [destruct Hin|].
      now exists (e :: errs). }
    split; [exact E|].
    intros c' H. destruct E as (errs & E & _). congruence.
  - intros env c HP Hl.
    destruct (Unmarshal_sections L _ c HP) as (_ & _ & Hd & _).
    unfold field in Hd.
    destruct (findField L (Load L env) "database") as [[s|sub]|];
      simpl in Hd.
    + discriminate.
    + apply decodeDatabase_fields in Hd. destruct Hd as (_&_&_&Hn&_).
      unfold field in Hn. rewrite (Hl sub eq_refl) in Hn. now injection Hn.
    + now injection Hd as <-.
Qed.

(** C9: [Database.Password], [Redis.Password] and [AWS.EndpointURL] carry
    no [required] tag: the validation does not depend on them, and a
    configuration whose tagged fields all have values passes it with these
    three fields empty. *)
Theorem C9_untagged_fields :
  (forall c : Config.t X,
      requiredPresent L c ->
      DatabaseConfig.Password (Config.Database c) = "" ->
      RedisConfig.Password (Config.Redis c) = "" ->
      AWSConfig.EndpointURL (Config.AWS c) = "" ->
      validateStruct L c = [])
  /\ (forall p s host port user dbPassword name ssl mo mi lt it au address
             redisPassword i (o : option (ObservabilityConfig.t X))
             region keyID secret bucket endpoint cron,
        validateStruct L
          (Config.mk p s
             (DatabaseConfig.mk host port user dbPassword name ssl mo mi lt it)
             au (RedisConfig.mk address redisPassword) i o
             (AWSConfig.mk region keyID secret bucket endpoint) cron)
        = validateStruct L
            (Config.mk p s
               (DatabaseConfig.mk host port user "" name ssl mo mi lt it)
               au (RedisConfig.mk address "") i o
               (AWSConfig.mk region keyID secret bucket "") cron)).
Proof.
  split.
  - intros c H _ _ _. now apply validateStruct_nil.
  - reflexivity.
Qed.

(** C10: [DefaultCronConfig] is the record 30, 100, 24, 10, and it is the
    Cron section of every configuration that [LoadConfig] returns for an
    input without that section. *)
Theorem C10_default_cron_record :
  DefaultCronConfig = CronConfig.mk 30 100 24 10
  /\ (forall (fs : FileSystem) (env : Env) (c : Config.t X),
        LoadConfig L fs env = Returns c ->
        conflictFree L (overlaid fs env) = true ->
        supplies L (overlaid fs env) "cron" = false ->
        Config.Cron c = Some (CronConfig.mk 30 100 24 10))
  /\ (forall (fs : FileSystem) (env : Env) (c : Config.t X),
        LoadConfig L fs env = Returns c ->
        mentions L (overlaid fs env) "cron" = false ->
        Config.Cron c = Some (CronConfig.mk 30 100 24 10)).
Proof.
  split; [reflexivity|]. split.
  - intros fs env c H Hcf Hs.
    apply (LoadConfig_cron_default L fs env c H). now apply supplies_false.
  - intros fs env c H Hm.
    apply (LoadConfig_cron_default L fs env c H). now apply mentions_false.
Qed.

End Claims.

(* ------------------------------------------------------------------ *)
(** ** The claims at the sample environments *)
(* ------------------------------------------------------------------ *)

Lemma Sample_populate :
  populate Sample.lib Sample.dottedEnv = Some Sample.config.
Proof. vm_compute. reflexivity. Qed.

Lemma C1_sample_server_port :
  exists c, populate Sample.lib Sample.dottedEnv = Some c
            /\ ServerConfig.Port (Config.Server c) = "8080".
Proof.
  exists Sample.config. split; [vm_compute; reflexivity|].
  refine (proj1 (proj1 (proj2 (proj2 (proj2
            (C1_dotted_variable_names Sample.lib))))
            Sample.dottedEnv "server.port" "8080" "server" "port"
            Sample.config _ _ _ _)
            (fun c => ServerConfig.Port (Config.Server c)) _).
  - vm_compute. reflexivity.
  - vm_compute. repeat (first [left; reflexivity | right]).
  - reflexivity.
  - vm_compute. reflexivity.
  - simpl. right. left. reflexivity.
Defined.

(** C1 as stated fails: with every other required field supplied, the
    variable [TASKER_SERVER_PORT=8080] leaves the server port empty, and
    [LoadConfig] ends at the validation. *)
Lemma C1_underscore_name_not_mapped :
  (exists c, populate Sample.lib Sample.underscoreEnv = Some c
             /\ ServerConfig.Port (Config.Server c) = "")
  /\ LoadConfig Sample.lib Sample.noFiles Sample.underscoreEnv
     = Fatal "config validation failed"
         (ValidationErrors [mkError "Config.Server.Port" "required"]).
Proof.
  split.
  - eexists. split; [vm_compute; reflexivity | reflexivity].
  - vm_compute. reflexivity.
Qed.



Lemma C5_sample_identity :
  exists c, LoadConfig Sample.lib Sample.noFiles Sample.observedEnv = Returns c
            /\ exists o, Config.Observability c = Some o
                         /\ ObservabilityConfig.ServiceName o = "tasker"
                         /\ ObservabilityConfig.Environment o
                            = Primary.Env (Config.Primary c).
Proof.
  eexists. split; [vm_compute; reflexivity|].
  apply (proj2 (C5_identity_overwritten Sample.lib)
           Sample.noFiles Sample.observedEnv).
  vm_compute. reflexivity.
Defined.

Lemma C8_sample_nameless :
  (exists errs,
      LoadConfig Sample.lib Sample.noFiles Sample.namelessEnv
      = Fatal "config validation failed" (ValidationErrors errs)
      /\ In (mkError "Config.Database.Name" "required") errs)
  /\ forall c',
      LoadConfig Sample.lib Sample.noFiles Sample.namelessEnv <> Returns c'.
Proof.
  eapply (proj1 (C8_missing_database_name Sample.lib)
            Sample.noFiles Sample.namelessEnv).
  - vm_compute. reflexivity.
  - reflexivity.
Defined.

Lemma Sample_requiredPresent : requiredPresent Sample.lib Sample.config.
Proof.
  unfold requiredPresent. simpl.
  repeat split; try discriminate. 
Qed.

Lemma C9_sample_passes :
  validateStruct Sample.lib Sample.config = [].
Proof.
  apply (proj1 (C9_untagged_fields Sample.lib) Sample.config).
  - exact Sample_requiredPresent.
  - reflexivity.
  - reflexivity.
  - reflexivity.
Defined.

Lemma C10_sample_cron_record :
  exists c, LoadConfig Sample.lib Sample.noFiles Sample.dottedEnv = Returns c
            /\ Config.Cron c = Some (CronConfig.mk 30 100 24 10).
Proof.
  eexists. split; [vm_compute; reflexivity|].
  apply (proj1 (proj2 (C10_default_cron_record Sample.lib))
           Sample.noFiles Sample.dottedEnv);
    vm_compute; reflexivity.
Defined.

(* ------------------------------------------------------------------ *)
(** ** [loadDotEnvFiles] as a whole *)
(* ------------------------------------------------------------------ *)

Lemma putAll_app (l1 l2 : list (string * string)) (env : Env) :
  putAll (l1 ++ l2) env = putAll l2 (putAll l1 env).
Proof. unfold putAll. apply fold_left_app. Qed.

Lemma loadLines_putAll (lines : list string) (env : Env) :
  fold_left loadLine lines env = putAll (assignments lines) env.
Proof.
  revert env. induction lines as [|text lines IH]; intros env; simpl;
    [reflexivity|].
  rewrite IH. unfold loadLine.
  destruct (parseLine text) as [[k v]|]; [|reflexivity].
  unfold Setenv, accepted. simpl.
  destruct (validKey k && validValue v); reflexivity.
Qed.

Lemma loadDotEnvFiles_putAll (fs : FileSystem) (paths : list string)
  (env : Env) :
  loadDotEnvFiles fs paths env = putAll (allAssignments fs paths) env.
Proof.
  revert env. induction paths as [|p paths IH]; intros env; [reflexivity|].
  change (loadDotEnvFiles fs (p :: paths) env)
    with (loadDotEnvFiles fs paths
            (match fs p with None => env | Some c => loadFile env c end)).
  rewrite IH.
  change (allAssignments fs (p :: paths))
    with (fileAssignments fs p ++ allAssignments fs paths)%list.
  rewrite putAll_app. f_equal.
  unfold fileAssignments. destruct (fs p) as [c|]; [|reflexivity].
  unfold loadFile. apply loadLines_putAll.
Qed.

Lemma Getenv_putAll (key : string) (l : list (string * string)) (env : Env) :
  Getenv key (putAll l env) =
  match lastValue key l with
  | Some v => Some v
  | None => Getenv key env
  end.
Proof.
  revert env. induction l as [|[k v] l IH]; intros env; [reflexivity|].
  change (putAll ((k, v) :: l) env) with (putAll l (put k v env)).
  rewrite IH. simpl.
  destruct (lastValue key l); [reflexivity|].
  destruct (String.eqb_spec k key) as [->|Hk].
  - apply Getenv_put_same.
  - apply Getenv_put_other. congruence.
Qed.

Lemma lastValue_In (key v : string) (l : list (string * string)) :
  lastValue key l = Some v -> In (key, v) l.
Proof.
  induction l as [|[k w] l IH]; simpl; [discriminate|].
  destruct (lastValue key l) as [u|].
  - intros [= ->]. right. now apply IH.
  - destruct (String.eqb_spec k key) as [->|]; [|discriminate].
    intros [= ->]. now left.
Qed.

Lemma assignments_accepted (lines : list string) (kv : string * string) :
  In kv (assignments lines) ->
  accepted kv = true /\ exists text, In text lines /\ parseLine text = Some kv.
Proof.
  induction lines as [|text lines IH]; simpl; [tauto|].
  intros H.
  assert (R : In kv (assignments lines) ->
              accepted kv = true
              /\ exists t, (text = t \/ In t lines) /\ parseLine t = Some kv).
  { intros H'. destruct (IH H') as (A & t & Ht & P).
    split; [exact A|]. exists t. split; [now right | exact P]. }
  destruct (parseLine text) as [kv'|] eqn:P; [|now apply R].
  destruct (accepted kv') eqn:A; [|now apply R].
  destruct H as [<-|H]; [|now apply R].
  split; [exact A|]. exists text. split; [now left | exact P].
Qed.

Lemma allAssignments_accepted (fs : FileSystem) (paths : list string)
  (kv : string * string) :
  In kv (allAssignments fs paths) ->
  accepted kv = true /\ exists text, parseLine text = Some kv.
Proof.
  unfold allAssignments. intros H. apply in_flat_map in H.
  destruct H as (p & _ & H). unfold fileAssignments in H.
  destruct (fs p) as [c|]; [|destruct H].
  destruct (assignments_accepted _ _ H) as (A & t & _ & P).
  split; [exact A | now exists t].
Qed.

(** *** Assignments one after the other *)

Lemma put_current (k v : string) (env : Env) :
  Getenv k env = Some v -> put k v env = env.
Proof.
  induction env as [|[k' v'] env IH]; simpl; [discriminate|].
  destruct (String.eqb_spec k' k) as [->|Hk].
  - now intros [= ->].
  - intros H. now rewrite IH.
Qed.

Lemma put_absorb (k v1 v2 : string) (env : Env) :
  put k v2 (put k v1 env) = put k v2 env.
Proof.
  induction env as [|[k' v'] env IH]; simpl.
  - now rewrite String.eqb_refl.
  - destruct (String.eqb k' k) eqn:E; simpl.
    + now rewrite String.eqb_refl.
    + now rewrite E, IH.
Qed.

Lemma put_commute (k1 k2 v1 v2 : string) (env : Env) :
  k1 <> k2 -> Getenv k1 env <> None ->
  put k1 v1 (put k2 v2 env) = put k2 v2 (put k1 v1 env).
Proof.
  intros Hne. induction env as [|[k v] env IH]; simpl; [congruence|].
  intros H.
  destruct (String.eqb_spec k k1) as [->|H1];
    destruct (String.eqb_spec k1 k2) as [E|_]; try congruence.
  - destruct (String.eqb_spec k1 k2); [congruence|]. simpl.
    rewrite String.eqb_refl.
    destruct (String.eqb_spec k1 k2); [congruence | reflexivity].
  - destruct (String.eqb_spec k k2) as [->|H2]; simpl.
    + destruct (String.eqb_spec k2 k1); [congruence|].
      now rewrite String.eqb_refl.
    + destruct (String.eqb_spec k k1); [congruence|].
      destruct (String.eqb_spec k k2); [congruence|].
      now rewrite IH.
Qed.

Lemma Getenv_put_kept (k k' v : string) (env : Env) :
  Getenv k' env <> None -> Getenv k' (put k v env) <> None.
Proof.
  intros H. destruct (string_dec k' k) as [->|Hk].
  - now rewrite Getenv_put_same.
  - now rewrite Getenv_put_other.
Qed.

(** An assignment to a key that is assigned again later leaves no trace. *)
Lemma putAll_overwritten (l : list (string * string)) :
  forall (env : Env) (k v : string),
    lastValue k l <> None -> Getenv k env <> None ->
    putAll l (put k v env) = putAll l env.
Proof.
  induction l as [|[k' v'] l IH]; intros env k v Hl Hk; simpl in Hl;
    [congruence|].
  change (putAll ((k', v') :: l) ?e) with (putAll l (put k' v' e)).
  destruct (String.eqb_spec k' k) as [->|Hne].
  - now rewrite put_absorb.
  - rewrite <- (put_commute k k' v v' env) by congruence.
    apply IH; [|now apply Getenv_put_kept].
    now destruct (lastValue k l).
Qed.

(** Assignments that give every key the value it has change nothing. *)
Lemma putAll_fixed (l : list (string * string)) :
  forall env : Env,
    (forall k v, lastValue k l = Some v -> Getenv k env = Some v) ->
    putAll l env = env.
Proof.
  induction l as [|[k v] l IH]; intros env H; [reflexivity|].
  change (putAll ((k, v) :: l) env) with (putAll l (put k v env)).
  assert (Hrest : forall k' v', lastValue k' l = Some v' ->
                                Getenv k' env = Some v').
  { intros k' v' E. apply H. simpl. now rewrite E. }
  destruct (lastValue k l) as [w|] eqn:E.
  - rewrite putAll_overwritten.
    + now apply IH.
    + now rewrite E.
    + rewrite (Hrest k w E). discriminate.
  - rewrite put_current; [now apply IH|].
    apply H. simpl. now rewrite E, String.eqb_refl.
Qed.

Lemma putAll_idempotent (l : list (string * string)) (env : Env) :
  putAll l (putAll l env) = putAll l env.
Proof.
  apply putAll_fixed. intros k v E. now rewrite Getenv_putAll, E.
Qed.

(** X1: [loadDotEnvFiles] skips the paths it cannot open: the result is
    that of the paths it can open, and the environment is unchanged when
    none can be. *)
Theorem X1_missing_files_skipped :
  (forall (fs : FileSystem) (paths : list string) (env : Env),
      loadDotEnvFiles fs paths env
      = loadDotEnvFiles fs (filter (present fs) paths) env)
  /\ (forall (fs : FileSystem) (paths : list string) (env : Env),
        (forall p, In p paths -> fs p = None) ->
        loadDotEnvFiles fs paths env = env).
Proof.
  assert (A : forall fs paths env,
             loadDotEnvFiles fs paths env
             = loadDotEnvFiles fs (filter (present fs) paths) env).
  { intros fs paths. induction paths as [|p paths IH]; intros env;
      [reflexivity|].
    change (loadDotEnvFiles fs (p :: paths) env)
      with (loadDotEnvFiles fs paths
              (match fs p with None => env | Some c => loadFile env c end)).
    simpl. unfold present at 1. destruct (fs p) as [c|] eqn:E.
    - change (loadDotEnvFiles fs (p :: ?l) env)
        with (loadDotEnvFiles fs l
                (match fs p with None => env | Some c => loadFile env c end)).
      rewrite E. apply IH.
    - apply IH. }
  split; [exact A|].
  intros fs paths env H. rewrite A.
  replace (filter (present fs) paths) with (@nil string); [reflexivity|].
  symmetry. induction paths as [|p paths IH]; [reflexivity|].
  simpl. unfold present at 1. rewrite (H p) by now left.
  apply IH. intros q Hq. apply H. now right.
Qed.

Lemma X1_sample_no_files :
  loadDotEnvFiles Sample.noFiles dotEnvPaths Sample.dottedEnv
  = Sample.dottedEnv.
Proof.
  apply (proj2 X1_missing_files_skipped). intros p _. reflexivity.
Defined.

Lemma Cut_none (s : string) (sep : ascii) :
  Cut s sep = None <-> contains s sep = false.
Proof.
  induction s as [|c s IH]; simpl; [tauto|].
  destruct (Ascii.eqb c sep); simpl.
  - split; discriminate.
  - rewrite <- IH. destruct (Cut s sep) as [[a b]|]; split;
      congruence.
Qed.

Lemma parseLine_parts (text k v : string) :
  parseLine text = Some (k, v) ->
  exists p0 p1, k = TrimSpace p0 /\ v = stripQuotes (TrimSpace p1).
Proof.
  unfold parseLine, SplitN2.
  destruct (String.eqb (TrimSpace text) "" || HasPrefix (TrimSpace text) "#");
    [discriminate|].
  destruct (Cut (TrimSpace text) "=") as [[a b]|]; [|discriminate].
  intros [= <- <-]. now exists a, b.
Qed.

(** X2: the lines [loadDotEnvFiles] passes over are exactly the blank
    lines, the lines whose first character after the leading spaces is
    [#], and the lines without an ['=']; such a line leaves the
    environment as it is, whatever else it holds. *)
Theorem X2_lines_passed_over :
  (forall text : string,
      parseLine text = None <->
      TrimSpace text = ""
      \/ HasPrefix (TrimSpace text) "#" = true
      \/ contains (TrimSpace text) "="%char = false)
  /\ (forall (text : string) (env : Env),
        TrimSpace text = ""
        \/ HasPrefix (TrimSpace text) "#" = true
        \/ contains (TrimSpace text) "="%char = false ->
        loadLine env text = env).
Proof.
  assert (A : forall text : string,
             parseLine text = None <->
             TrimSpace text = ""
             \/ HasPrefix (TrimSpace text) "#" = true
             \/ contains (TrimSpace text) "="%char = false).
  { intros text. unfold parseLine, SplitN2.
    destruct (String.eqb_spec (TrimSpace text) "") as [E|E]; simpl.
    - tauto.
    - destruct (HasPrefix (TrimSpace text) "#"); [tauto|].
      rewrite <- Cut_none.
      destruct (Cut (TrimSpace text) "=") as [[a b]|]; split;
        try tauto; try discriminate.
      intros [H|[H|H]]; congruence. }
  split; [exact A|].
  intros text env H. apply A in H. unfold loadLine. now rewrite H.
Qed.

Lemma X2_sample_comment_with_equals :
  loadLine [("A", "0")] "  # A=1" = [("A", "0")].
Proof.
  apply (proj2 X2_lines_passed_over). right. left. reflexivity.
Defined.

(** X3: a variable whose value [loadDotEnvFiles] changes has a name that
    is not empty, holds no ['='] and no NUL byte and neither begins nor
    ends with a space, and its new value holds no NUL byte. *)
Theorem X3_names_assigned (fs : FileSystem) (paths : list string) (env : Env)
  (key : string) :
  Getenv key (loadDotEnvFiles fs paths env) <> Getenv key env ->
  exists v,
    Getenv key (loadDotEnvFiles fs paths env) = Some v
    /\ key <> ""
    /\ contains key "="%char = false
    /\ contains key NUL = false
    /\ leadingSpace key = false
    /\ trailingSpace key = false
    /\ contains v NUL = false.
Proof.
  rewrite loadDotEnvFiles_putAll, Getenv_putAll.
  destruct (lastValue key (allAssignments fs paths)) as [v|] eqn:E;
    [intros _ | congruence].
  exists v. split; [reflexivity|].
  apply lastValue_In in E.
  destruct (allAssignments_accepted _ _ _ E) as (A & text & P).
  unfold accepted, validKey, validValue in A. simpl in A.
  apply andb_true_iff in A. destruct A as [A Hv].
  apply andb_true_iff in A. destruct A as [A Hnul].
  apply andb_true_iff in A. destruct A as [Hne Heq].
  apply negb_true_iff in Hne, Heq, Hnul, Hv.
  apply String.eqb_neq in Hne.
  destruct (parseLine_parts _ _ _ P) as (p0 & p1 & -> & _).
  repeat split; try assumption.
  - apply leadingSpace_TrimSpace.
  - apply trailingSpace_TrimSpace.
Qed.

Lemma X3_sample_key :
  exists v,
    Getenv "KEY" (loadDotEnvFiles Sample.twoFiles dotEnvPaths []) = Some v
    /\ "KEY" <> ""
    /\ contains "KEY" "="%char = false
    /\ contains "KEY" NUL = false
    /\ leadingSpace "KEY" = false
    /\ trailingSpace "KEY" = false
    /\ contains v NUL = false.
Proof.
  apply (X3_names_assigned Sample.twoFiles dotEnvPaths [] "KEY").
  vm_compute. discriminate.
Defined.

(** X4: after [loadDotEnvFiles] a variable has the value of the last
    assignment the files make to it, and the value it had when they make
    none; so no variable is ever unset, and a variable that no file
    defines keeps its value. *)
Theorem X4_loader_assigns_only :
  (forall (fs : FileSystem) (paths : list string) (env : Env) (key : string),
      Getenv key (loadDotEnvFiles fs paths env)
      = match lastValue key (allAssignments fs paths) with
        | Some v => Some v
        | None => Getenv key env
        end)
  /\ (forall (fs : FileSystem) (paths : list string) (env : Env)
             (key v : string),
        Getenv key env = Some v ->
        Getenv key (loadDotEnvFiles fs paths env) <> None)
  /\ (forall (fs : FileSystem) (paths : list string) (env : Env)
             (key : string),
        (forall p c, In p paths -> fs p = Some c -> defines c key = None) ->
        Getenv key (loadDotEnvFiles fs paths env) = Getenv key env).
Proof.
  split; [|split].
  - intros. now rewrite loadDotEnvFiles_putAll, Getenv_putAll.
  - intros fs paths env key v H.
    rewrite loadDotEnvFiles_putAll, Getenv_putAll.
    destruct (lastValue key (allAssignments fs paths)); congruence.
  - intros. now apply Getenv_loadDotEnvFiles_frame.
Qed.

Lemma X4_sample_kept :
  Getenv "HOME" (loadDotEnvFiles Sample.twoFiles dotEnvPaths Sample.baseEnv)
  <> None.
Proof.
  apply (proj1 (proj2 X4_loader_assigns_only) Sample.twoFiles dotEnvPaths
           Sample.baseEnv "HOME" "/root").
  reflexivity.
Defined.

(** *** Spaces around a line *)

Lemma asciiSpace_not_cont (c : ascii) :
  asciiSpace c = true -> cont (byte c) = false.
Proof.
  unfold asciiSpace. destruct (byte c) as [|p]; [discriminate|].
  do 6 (destruct p as [p|p|]; try discriminate; try reflexivity).
Qed.

Lemma isSpace2_ascii (a c : ascii) : asciiSpace c = true -> isSpace2 a c = false.
Proof.
  intros H. unfold isSpace2, decode2.
  now rewrite (asciiSpace_not_cont c H), andb_false_r.
Qed.

Lemma isSpace3_ascii (a b c : ascii) :
  asciiSpace c = true -> isSpace3 a b c = false.
Proof.
  intros H. unfold isSpace3, decode3.
  now rewrite (asciiSpace_not_cont c H), andb_false_r.
Qed.

Lemma Starts_snoc (w1 : ascii -> bool) (w2 : ascii -> ascii -> bool)
  (w3 : ascii -> ascii -> ascii -> bool) (s r t : string) :
  Starts w1 w2 w3 s r -> Starts w1 w2 w3 (s ++ t) (r ++ t).
Proof. intros [a r' H1|a b r' H1 H2|a b c r' H1 H2 H3]; now constructor. Qed.

Lemma TrimLeftSpace_snoc (c : ascii) (s : string) :
  asciiSpace c = true ->
  TrimLeftSpace (s ++ String c "")
  = match TrimLeftSpace s with
    | EmptyString => EmptyString
    | t => t ++ String c ""
    end.
Proof.
  intros Hc. unfold TrimLeftSpace.
  apply (dropRunes_ind asciiSpace isSpace2 isSpace3
           (fun s t => dropRunes asciiSpace isSpace2 isSpace3 (s ++ String c "")
                       = match t with
                         | EmptyString => EmptyString
                         | String a r => String a r ++ String c ""
                         end)).
  - intros t Ht. destruct t as [|a r].
    + simpl. now rewrite Hc.
    + apply dropRunes_fixed.
      destruct r as [|b [|d r]]; simpl in *;
        repeat (apply orb_false_iff in Ht; destruct Ht as [? Ht]);
        repeat match goal with E : _ = false |- _ => rewrite E end;
        rewrite ?isSpace2_ascii, ?isSpace3_ascii by exact Hc;
        try rewrite Ht; reflexivity.
  - intros t r Hr IH.
    now rewrite (Starts_drop _ _ _ _ _ (Starts_snoc _ _ _ _ _ _ Hr)).
Qed.

Lemma TrimRightSpace_snoc (c : ascii) (s : string) :
  asciiSpace c = true ->
  TrimRightSpace (s ++ String c "") = TrimRightSpace s.
Proof.
  intros Hc. unfold TrimRightSpace, dropSpaceRev.
  rewrite reverse_app. simpl. now rewrite Hc.
Qed.

Lemma TrimSpace_snoc (c : ascii) (s : string) :
  asciiSpace c = true -> TrimSpace (s ++ String c "") = TrimSpace s.
Proof.
  intros Hc. unfold TrimSpace. rewrite (TrimLeftSpace_snoc c s Hc).
  destruct (TrimLeftSpace s) as [|a t]; [reflexivity|].
  now apply TrimRightSpace_snoc.
Qed.

Lemma TrimSpace_cons (c : ascii) (s : string) :
  asciiSpace c = true -> TrimSpace (String c s) = TrimSpace s.
Proof.
  intros Hc. unfold TrimSpace, TrimLeftSpace. simpl. now rewrite Hc.
Qed.

(** X14: a blank, a tab or a carriage return in front of a line or at its
    end does not change what the line assigns; so files with Windows line
    ends and indented lines load as the plain ones do. *)
Theorem X14_blanks_around_line (c : ascii) (text : string) :
  asciiSpace c = true ->
  parseLine (String c text) = parseLine text
  /\ parseLine (text ++ String c "") = parseLine text
  /\ forall env, loadLine env (String c (text ++ String c ""))
                 = loadLine env text.
Proof.
  intros Hc.
  assert (A : TrimSpace (String c text) = TrimSpace text)
    by now apply TrimSpace_cons.
  assert (B : TrimSpace (text ++ String c "") = TrimSpace text)
    by now apply TrimSpace_snoc.
  assert (C : TrimSpace (String c (text ++ String c "")) = TrimSpace text)
    by now rewrite TrimSpace_cons, B.
  unfold loadLine, parseLine. rewrite A, B, C. auto.
Qed.

Lemma X14_sample_carriage_return :
  parseLine (String CR "A=1") = parseLine "A=1"
  /\ parseLine ("A=1" ++ String CR "") = parseLine "A=1"
  /\ forall env, loadLine env (String CR ("A=1" ++ String CR ""))
                 = loadLine env "A=1".
Proof. apply (X14_blanks_around_line CR "A=1"). reflexivity. Defined.

(** *** Variables with and without the prefix *)

Lemma Read_filter (pre : string) (cb : string -> string) (env : Env) :
  koanf.Read pre cb (filter (fun kv => HasPrefix (fst kv) pre) env)
  = koanf.Read pre cb env.
Proof.
  unfold koanf.Read. generalize (@nil (string * string)).
  induction env as [|[k v] env IH]; intros acc; [reflexivity|].
  simpl. destruct (HasPrefix k pre) eqn:E; simpl.
  - rewrite E. apply IH.
  - apply IH.
Qed.

Lemma filter_put_prefixed (k v : string) (env : Env) :
  prefixed (k, v) = true ->
  filter prefixed (put k v env) = put k v (filter prefixed env).
Proof.
  intros Hp. induction env as [|[k' v'] env IH]; simpl.
  - now rewrite Hp.
  - destruct (String.eqb_spec k' k) as [->|Hk]; simpl.
    + change (prefixed (k, v')) with (prefixed (k, v)).
      rewrite Hp. simpl. now rewrite String.eqb_refl.
    + destruct (prefixed (k', v')); simpl.
      * destruct (String.eqb_spec k' k); [congruence|]. now rewrite IH.
      * exact IH.
Qed.

Lemma filter_put_foreign (k v : string) (env : Env) :
  prefixed (k, v) = false ->
  filter prefixed (put k v env) = filter prefixed env.
Proof.
  intros Hp. induction env as [|[k' v'] env IH]; simpl.
  - now rewrite Hp.
  - destruct (String.eqb_spec k' k) as [->|Hk]; simpl.
    + change (prefixed (k, v')) with (prefixed (k, v)). now rewrite Hp.
    + destruct (prefixed (k', v')); simpl; now rewrite IH.
Qed.

Lemma filter_putAll (l : list (string * string)) (env : Env) :
  filter prefixed (putAll l env)
  = putAll (filter prefixed l) (filter prefixed env).
Proof.
  revert env. induction l as [|[k v] l IH]; intros env; [reflexivity|].
  change (putAll ((k, v) :: l) env) with (putAll l (put k v env)).
  rewrite IH. simpl. destruct (prefixed (k, v)) eqn:E.
  - now rewrite filter_put_prefixed.
  - now rewrite filter_put_foreign.
Qed.

(** *** Validation, read backwards *)

Lemma required_inv (ns : string) (b : bool) : required ns b = [] -> b = true.
Proof. unfold required. now destruct b. Qed.

Lemma reqString_inv (ns s : string) : reqString ns s = [] -> s <> "".
Proof.
  intros H. apply required_inv, negb_true_iff in H.
  now apply String.eqb_neq.
Qed.

Lemma reqInt_inv (ns : string) (n : Z) : reqInt ns n = [] -> n <> 0%Z.
Proof.
  intros H. apply required_inv, negb_true_iff in H. now apply Z.eqb_neq.
Qed.

Lemma reqSlice_inv (ns : string) (l : StringSlice) :
  reqSlice ns l = [] -> l <> None.
Proof. intros H. apply required_inv in H. now destruct l. Qed.

Section Extras.

Variable L : Externals.
Local Abbreviation X := (ObsSettings L).

Lemma collected_filter (env : Env) :
  collected L (filter prefixed env) = collected L env.
Proof. apply Read_filter. Qed.

Lemma populate_filter (env : Env) :
  populate L (filter prefixed env) = populate L env.
Proof. unfold populate, Load. now rewrite collected_filter. Qed.

Lemma populate_filter_any (L' : Externals) (env : Env) :
  populate L' (filter prefixed env) = populate L' env.
Proof.
  assert (E : collected L' (filter prefixed env) = collected L' env)
    by apply Read_filter.
  unfold populate, Load. now rewrite E.
Qed.

Lemma overlaid_filter (fs : FileSystem) (env : Env) :
  filter prefixed (overlaid fs env)
  = putAll (filter prefixed (allAssignments fs dotEnvPaths))
      (filter prefixed env).
Proof. unfold overlaid. now rewrite loadDotEnvFiles_putAll, filter_putAll. Qed.

(** X5: loading the override files a second time changes nothing: a
    second call of [LoadConfig] in the same process, which starts from
    the environment the first call left, works on the very environment
    the first call worked on, and collects the same flat map.  Each call
    ranges over that map in an order of its own, so the second call can
    end in the ways the first could, and in no other. *)
Theorem X5_loading_twice :
  (forall (fs : FileSystem) (paths : list string) (env : Env),
      loadDotEnvFiles fs paths (loadDotEnvFiles fs paths env)
      = loadDotEnvFiles fs paths env)
  /\ (forall (fs : FileSystem) (env : Env),
        overlaid fs (overlaid fs env) = overlaid fs env
        /\ collected L (overlaid fs (overlaid fs env))
           = collected L (overlaid fs env))
  /\ (forall (fs : FileSystem) (env : Env) o,
        mayEnd L fs (overlaid fs env) o <-> mayEnd L fs env o).
Proof.
  assert (A : forall fs paths env,
             loadDotEnvFiles fs paths (loadDotEnvFiles fs paths env)
             = loadDotEnvFiles fs paths env).
  { intros. rewrite !loadDotEnvFiles_putAll. apply putAll_idempotent. }
  split; [exact A|]. split.
  - intros fs env. unfold overlaid. now rewrite A.
  - intros fs env o. unfold mayEnd, LoadConfig, overlaid.
    now rewrite A.
Qed.

(** X6: [LoadConfig] depends on the process environment and on the
    override files only through the variables whose names begin with
    [TASKER_]: two runs that agree on those variables and on the
    assignments the files make to such names collect the same flat map.
    Each run ranges over that map in an order of its own; the ways in
    which the one run can end are those in which the other can. *)
Theorem X6_only_prefixed_variables (fs fs' : FileSystem) (env env' : Env) :
  filter prefixed env = filter prefixed env' ->
  filter prefixed (allAssignments fs dotEnvPaths)
  = filter prefixed (allAssignments fs' dotEnvPaths) ->
  collected L (overlaid fs env) = collected L (overlaid fs' env')
  /\ forall o, mayEnd L fs env o <-> mayEnd L fs' env' o.
Proof.
  intros He Hf.
  assert (A : filter prefixed (overlaid fs env)
              = filter prefixed (overlaid fs' env'))
    by now rewrite !overlaid_filter, He, Hf.
  split.
  - rewrite <- (collected_filter (overlaid fs env)).
    rewrite <- (collected_filter (overlaid fs' env')).
    now rewrite A.
  - intros o. unfold mayEnd, LoadConfig.
    assert (B : forall order perm,
               populate (reordered L order perm) (overlaid fs env)
               = populate (reordered L order perm) (overlaid fs' env')).
    { intros order perm.
      rewrite <- (populate_filter_any (reordered L order perm)
                    (overlaid fs env)).
      rewrite <- (populate_filter_any (reordered L order perm)
                    (overlaid fs' env')).
      now rewrite A. }
    split; intros (order & perm & H); exists order, perm;
      [rewrite <- B | rewrite B]; exact H.
Qed.

Lemma validateStruct_present (c : Config.t X) :
  validateStruct L c = [] -> requiredPresent L c.
Proof.
  unfold validateStruct, validatePrimary, validateServer, validateDatabase,
    validateAuth, validateRedis, validateIntegration, validateAWS.
  intros H.
  repeat match goal with
         | H : (_ ++ _)%list = [] |- _ =>
             apply app_eq_nil in H; destruct H
         end.
  repeat match goal with
         | H : reqString _ _ = [] |- _ => apply reqString_inv in H
         | H : reqInt _ _ = [] |- _ => apply reqInt_inv in H
         | H : reqSlice _ _ = [] |- _ => apply reqSlice_inv in H
         end.
  unfold requiredPresent. repeat split; try assumption.
  intros o Ho.
  match goal with
  | H : match Config.Observability c with _ => _ end = [] |- _ =>
      now rewrite Ho in H
  end.
Qed.

(** X9: the validation of the populated configuration passes exactly when
    every field tagged [required] has a value (a string not empty, an
    integer not zero, a slice not nil) and the tags of a present
    Observability section are met. *)
Theorem X9_validation_passes_iff (c : Config.t X) :
  validateStruct L c = [] <-> requiredPresent L c.
Proof.
  split; [apply validateStruct_present | apply validateStruct_nil].
Qed.

Lemma observabilityOf_steps (c : Config.t X) :
  observabilityOf L (normalizeRedis (injectObservability L c))
  = identified L c.
Proof.
  unfold identified, observabilityOf, injectObservability. simpl.
  now destruct (Config.Observability c).
Qed.

(** X10: [LoadConfig] returns exactly when the population succeeds, every
    required field has a value and [Validate] accepts the Observability
    section as it stands after the service name and the environment were
    set; what it returns is the populated configuration with the three
    later steps applied.  In every other case it ends the process. *)
Theorem X10_returns_iff (fs : FileSystem) (env : Env) (c' : Config.t X) :
  LoadConfig L fs env = Returns c' <->
  exists c,
    populate L (overlaid fs env) = Some c
    /\ requiredPresent L c
    /\ Validate L (identified L c) = None
    /\ c' = injectCron (normalizeRedis (injectObservability L c)).
Proof.
  unfold LoadConfig, finish. split.
  - destruct (populate L (overlaid fs env)) as [c|]; [|discriminate].
    destruct (validateStruct L c) eqn:V; [|discriminate].
    rewrite observabilityOf_steps.
    destruct (Validate L (identified L c)) eqn:O; [discriminate|].
    intros [= <-]. exists c.
    split; [reflexivity|].
    split; [now apply validateStruct_present|].
    split; [exact O | reflexivity].
  - intros (c & -> & HR & HV & ->).
    apply validateStruct_nil in HR. rewrite HR.
    now rewrite observabilityOf_steps, HV.
Qed.

(** *** The Redis address that is returned *)

Lemma normalize_blank_iff (a : string) :
  normalizeRedisAddress a = "" <->
  TrimSpace a = "" \/ TrimSpace a = "redis://" \/ TrimSpace a = "rediss://".
Proof.
  destruct (string_dec a "") as [->|Ha].
  { split; [now left | reflexivity]. }
  rewrite (normalize_nonempty a Ha). cbv zeta. split.
  - destruct (HasPrefix (TrimSpace a) "redis://") eqn:E1.
    + intros H. right. left. unfold TrimPrefix in H. rewrite E1 in H.
      apply HasPrefix_split in E1. now rewrite H in E1.
    + destruct (HasPrefix (TrimSpace a) "rediss://") eqn:E2.
      * intros H. right. right. unfold TrimPrefix in H. rewrite E2 in H.
        apply HasPrefix_split in E2. now rewrite H in E2.
      * now left.
  - intros [->|[->| ->]]; reflexivity.
Qed.

(** X11: the address of the returned configuration is the normal form of
    the populated one, which validation has found not empty; it is empty
    all the same exactly when the populated address holds nothing but
    spaces or is a bare [redis://] or [rediss://], the validation coming
    before the normalisation. *)
Theorem X11_returned_address (fs : FileSystem) (env : Env)
  (c c' : Config.t X) :
  populate L (overlaid fs env) = Some c ->
  LoadConfig L fs env = Returns c' ->
  RedisConfig.Address (Config.Redis c) <> ""
  /\ RedisConfig.Address (Config.Redis c')
     = normalizeRedisAddress (RedisConfig.Address (Config.Redis c))
  /\ (RedisConfig.Address (Config.Redis c') = "" <->
      TrimSpace (RedisConfig.Address (Config.Redis c)) = ""
      \/ TrimSpace (RedisConfig.Address (Config.Redis c)) = "redis://"
      \/ TrimSpace (RedisConfig.Address (Config.Redis c)) = "rediss://").
Proof.
  intros HP H.
  destruct (LoadConfig_Returns L fs env c' H) as (c0 & HP0 & HV & ->).
  rewrite HP in HP0. injection HP0 as <-.
  apply validateStruct_present in HV.
  assert (A : RedisConfig.Address
                (Config.Redis
                   (injectCron (normalizeRedis (injectObservability L c))))
              = normalizeRedisAddress (RedisConfig.Address (Config.Redis c))).
  { unfold injectCron.
    destruct (Config.Cron (normalizeRedis (injectObservability L c)));
      reflexivity. }
  split; [apply HV|]. split; [exact A|].
  rewrite A. apply normalize_blank_iff.
Qed.

(** *** Nothing to populate from *)

Lemma rangeOrder_nil : rangeOrder L [] = [].
Proof.
  apply Permutation_nil, Permutation_sym, rangeOrder_perm.
Qed.

(** X12: when no variable has a name that begins with [TASKER_], in the
    capitals the prefix is written in, [LoadConfig] ends at the
    validation, and the error lists every required field of [Config] in
    the order of the struct. *)
Theorem X12_nothing_supplied (fs : FileSystem) (env : Env) :
  filter prefixed (overlaid fs env) = [] ->
  LoadConfig L fs env
  = Fatal "config validation failed" (ValidationErrors allRequired).
Proof.
  intros H. unfold LoadConfig.
  rewrite <- populate_filter, H.
  unfold populate, Load.
  change (collected L []) with (@nil (string * string)).
  rewrite rangeOrder_nil. reflexivity.
Qed.

(** *** A section given as a value *)

Lemma field_struct_scalar {A} (m : koanf.Conf) (tag v : string) (zero : A)
  (dec : koanf.Conf -> option A) :
  koanf.get tag m = Some (koanf.Str v) ->
  field L m tag zero (asStruct dec) = None.
Proof. intros G. unfold field. now rewrite (findField_get L _ _ _ G). Qed.

Lemma field_pointer_scalar {A} (m : koanf.Conf) (tag v : string)
  (dec : koanf.Conf -> option A) :
  koanf.get tag m = Some (koanf.Str v) ->
  field L m tag None (asPointer dec) = None.
Proof. intros G. unfold field. now rewrite (findField_get L _ _ _ G). Qed.

Lemma Unmarshal_scalar_section (m : koanf.Conf) (tag v : string) :
  In tag sectionTags ->
  koanf.get tag m = Some (koanf.Str v) ->
  Unmarshal L m = None.
Proof.
  intros Hin G. unfold Unmarshal. simpl in Hin.
  repeat (destruct Hin as [<-|Hin];
          [ first [ rewrite (field_struct_scalar m _ v _ _ G)
                  | rewrite (field_pointer_scalar m _ v _ G) ];
            chain_none
          |]).
  destruct Hin.
Qed.

(** X13: a variable that names a whole section of the sources, such as
    [TASKER_CRON] or [TASKER_SERVER], cannot be decoded into the section's
    struct: when no collected key is the dotted beginning of another,
    [LoadConfig] ends with the fatal log of the unmarshalling, before any
    validation. *)
Theorem X13_section_as_value (fs : FileSystem) (env : Env) (tag v : string) :
  In tag sectionTags ->
  conflictFree L (overlaid fs env) = true ->
  In (tag, v) (collected L (overlaid fs env)) ->
  LoadConfig L fs env
  = Fatal "could not unmarshal main config" UnmarshalError.
Proof.
  intros Htag Hcf Hin. unfold LoadConfig, populate.
  rewrite (Unmarshal_scalar_section _ tag v Htag); [reflexivity|].
  pose proof (collected_lookup L _ _ _ Hcf Hin) as Hl.
  simpl in Htag.
  repeat (destruct Htag as [<-|Htag]; [exact Hl|]).
  destruct Htag.
Qed.

(** *** A number that does not decode *)

Lemma field_int_bad (m : koanf.Conf) (f v : string) :
  koanf.get f m = Some (koanf.Str v) -> decodeInt L v = None ->
  field L m f 0%Z (asInt L) = None.
Proof.
  intros G D. unfold field. rewrite (findField_get L _ _ _ G). exact D.
Qed.

Lemma field_struct_bad {A} (m sub : koanf.Conf) (tag : string) (zero : A)
  (dec : koanf.Conf -> option A) :
  koanf.get tag m = Some (koanf.Map sub) -> dec sub = None ->
  field L m tag zero (asStruct dec) = None.
Proof.
  intros G D. unfold field. rewrite (findField_get L _ _ _ G). exact D.
Qed.

Lemma Unmarshal_bad_int (m : koanf.Conf) (sec f v : string)
  (proj : Config.t X -> Z) :
  In (sec, f, proj) (intFields L) ->
  koanf.lookup [sec; f] m = Some (koanf.Str v) ->
  decodeInt L v = None ->
  Unmarshal L m = None.
Proof.
  intros Hin Hl D. rewrite lookup_cons2 in Hl.
  destruct (koanf.get sec m) as [[s|sub]|] eqn:G; try discriminate.
  rewrite lookup_one in Hl.
  pose proof (field_int_bad sub f v Hl D) as F.
  simpl in Hin.
  repeat (destruct Hin as [Hin|Hin];
          [ injection Hin as <- <- <-;
            unfold Unmarshal;
            first [ rewrite (field_struct_bad m sub "server" _ (decodeServer L) G)
                  | rewrite (field_struct_bad m sub "database" _
                               (decodeDatabase L) G) ];
            [ chain_none
            | try unfold decodeServer; try unfold decodeDatabase;
              rewrite F; chain_none ]
          |]).
  destruct Hin.
Qed.

(** X7: what [LoadConfig] returns is the populated configuration but for
    three things: the Redis address, which is normalised, the
    Observability section, which is defaulted and given the service name
    and the environment, and a Cron section that was nil, which becomes
    the default record.  The required sections and the Redis password are
    as populated, a Cron section that was populated is returned as it
    was, and neither optional section is nil. *)
Theorem X7_sections_returned (fs : FileSystem) (env : Env)
  (c c' : Config.t X) :
  populate L (overlaid fs env) = Some c ->
  LoadConfig L fs env = Returns c' ->
  Config.Primary c' = Config.Primary c
  /\ Config.Server c' = Config.Server c
  /\ Config.Database c' = Config.Database c
  /\ Config.Auth c' = Config.Auth c
  /\ Config.Integration c' = Config.Integration c
  /\ Config.AWS c' = Config.AWS c
  /\ RedisConfig.Password (Config.Redis c')
     = RedisConfig.Password (Config.Redis c)
  /\ RedisConfig.Address (Config.Redis c')
     = normalizeRedisAddress (RedisConfig.Address (Config.Redis c))
  /\ (forall k, Config.Cron c = Some k -> Config.Cron c' = Some k)
  /\ (Config.Cron c = None -> Config.Cron c' = Some DefaultCronConfig)
  /\ Config.Observability c' = Some (identified L c)
  /\ Config.Cron c' <> None
  /\ Config.Observability c' <> None.
Proof.
  intros HP H.
  destruct (LoadConfig_Returns L fs env c' H) as (c0 & HP0 & _ & ->).
  rewrite HP in HP0. injection HP0 as <-.
  unfold injectCron.
  change (Config.Cron (normalizeRedis (injectObservability L c)))
    with (Config.Cron c).
  assert (O : forall d : Config.t X,
             Config.Observability d
             = Config.Observability (injectObservability L c) ->
             Config.Observability d = Some (identified L c)).
  { intros d ->. unfold identified, observabilityOf, injectObservability.
    simpl. now destruct (Config.Observability c). }
  assert (C : Config.Cron (normalizeRedis (injectObservability L c))
              = Config.Cron c) by reflexivity.
  destruct (Config.Cron c) as [k|] eqn:E.
  - repeat split; try (now apply O); try (rewrite C; discriminate);
      try discriminate.
    intros k' [= <-]. exact C.
  - repeat split; try (now apply O); discriminate.
Qed.

(** X8: an integer field whose variable does not decode as an integer
    (a timeout that is a word, say) is not skipped: when no collected key
    is the dotted beginning of another, [LoadConfig] ends with the fatal
    log of the unmarshalling. *)
Theorem X8_integer_not_decoded (fs : FileSystem) (env : Env)
  (key v sec f : string) (proj : Config.t X -> Z) :
  In (sec, f, proj) (intFields L) ->
  Split key "." = [sec; f] ->
  conflictFree L (overlaid fs env) = true ->
  In (key, v) (collected L (overlaid fs env)) ->
  decodeInt L v = None ->
  LoadConfig L fs env
  = Fatal "could not unmarshal main config" UnmarshalError.
Proof.
  intros Hf Hpath Hcf Hin D. unfold LoadConfig, populate.
  pose proof (collected_lookup L _ _ _ Hcf Hin) as Hl.
  rewrite Hpath in Hl.
  now rewrite (Unmarshal_bad_int _ sec f v proj Hf Hl D).
Qed.

End Extras.

(* ------------------------------------------------------------------ *)
(** ** The further properties at sample environments *)
(* ------------------------------------------------------------------ *)

Lemma X6_sample_foreign_variables :
  collected Sample.lib
    (overlaid Sample.twoFiles (("EDITOR", "vi") :: Sample.dottedEnv))
  = collected Sample.lib (overlaid Sample.noFiles Sample.dottedEnv)
  /\ forall o,
       mayEnd Sample.lib Sample.twoFiles
         (("EDITOR", "vi") :: Sample.dottedEnv) o
       <-> mayEnd Sample.lib Sample.noFiles Sample.dottedEnv o.
Proof.
  apply (X6_only_prefixed_variables Sample.lib); vm_compute; reflexivity.
Defined.

Lemma X9_sample_passes :
  validateStruct Sample.lib Sample.config = [].
Proof.
  apply (proj2 (X9_validation_passes_iff Sample.lib Sample.config)).
  exact Sample_requiredPresent.
Defined.

Lemma X10_sample_returns :
  exists c, LoadConfig Sample.lib Sample.noFiles Sample.dottedEnv = Returns c.
Proof.
  eexists.
  apply (proj2 (X10_returns_iff Sample.lib Sample.noFiles Sample.dottedEnv _)).
  exists Sample.config. split; [vm_compute; reflexivity|].
  split; [exact Sample_requiredPresent|].
  split; reflexivity.
Defined.

Lemma X11_sample_empty_address :
  exists c', LoadConfig Sample.lib Sample.noFiles Cases.bareSchemeEnv
             = Returns c'
             /\ RedisConfig.Address (Config.Redis c') = "".
Proof.
  assert (P : populate Sample.lib (overlaid Sample.noFiles Cases.bareSchemeEnv)
              = Some (Config.setRedis (RedisConfig.mk "redis://" "")
                        Sample.config))
    by (vm_compute; reflexivity).
  eexists. split; [vm_compute; reflexivity|].
  match goal with
  | |- RedisConfig.Address (Config.Redis ?c') = _ =>
      assert (R : LoadConfig Sample.lib Sample.noFiles Cases.bareSchemeEnv
                  = Returns c') by (vm_compute; reflexivity)
  end.
  apply (proj2 (proj2 (X11_returned_address Sample.lib Sample.noFiles
                         Cases.bareSchemeEnv _ _ P R))).
  right. left. reflexivity.
Defined.

Lemma X12_sample_foreign_only :
  LoadConfig Sample.lib Sample.twoFiles Cases.foreignEnv
  = Fatal "config validation failed" (ValidationErrors allRequired).
Proof.
  apply (X12_nothing_supplied Sample.lib). reflexivity.
Defined.

Lemma X13_sample_scalar_cron :
  LoadConfig Sample.lib Sample.noFiles Cases.scalarCronEnv
  = Fatal "could not unmarshal main config" UnmarshalError.
Proof.
  apply (X13_section_as_value Sample.lib Sample.noFiles Cases.scalarCronEnv
           "cron" "5").
  - simpl. tauto.
  - vm_compute. reflexivity.
  - vm_compute. tauto.
Defined.

Lemma X7_sample_sections :
  exists c', LoadConfig Sample.lib Sample.noFiles Sample.cronEnv = Returns c'
             /\ Config.Server c' = Config.Server Sample.config
             /\ Config.Cron c' = Some (CronConfig.mk 0 5 0 0).
Proof.
  eexists. split; [vm_compute; reflexivity|].
  match goal with
  | |- Config.Server ?c' = _ /\ _ =>
      assert (R : LoadConfig Sample.lib Sample.noFiles Sample.cronEnv
                  = Returns c') by (vm_compute; reflexivity)
  end.
  assert (P : populate Sample.lib (overlaid Sample.noFiles Sample.cronEnv)
              = Some (Config.setCron (Some (CronConfig.mk 0 5 0 0))
                        Sample.config)) by (vm_compute; reflexivity).
  pose proof (X7_sections_returned Sample.lib Sample.noFiles Sample.cronEnv
                _ _ P R) as H.
  split; [apply H|].
  apply (proj1 (proj2 (proj2 (proj2 (proj2 (proj2 (proj2 (proj2 (proj2
           H))))))))).
  reflexivity.
Defined.

Lemma X8_sample_bad_timeout :
  LoadConfig Sample.lib Sample.noFiles Cases.badTimeoutEnv
  = Fatal "could not unmarshal main config" UnmarshalError.
Proof.
  apply (X8_integer_not_decoded Sample.lib Sample.noFiles Cases.badTimeoutEnv
           "server.read_timeout" "soon" "server" "read_timeout"
           (fun c => ServerConfig.ReadTimeout (Config.Server c))).
  - simpl. tauto.
  - reflexivity.
  - vm_compute. reflexivity.
  - vm_compute. tauto.
  - reflexivity.
Defined.

(* ------------------------------------------------------------------ *)
(** ** A line too long for the scanner *)
(* ------------------------------------------------------------------ *)

Lemma Split_line (l s : string) (sep : ascii) :
  contains l sep = false -> Split (l ++ String sep s) sep = l :: Split s sep.
Proof.
  induction l as [|c l IH]; simpl; intros H.
  - now rewrite Ascii.eqb_refl.
  - apply orb_false_iff in H. destruct H as [-> H]. now rewrite IH.
Qed.

Lemma Split_whole (l : string) (sep : ascii) :
  contains l sep = false -> Split l sep = [l].
Proof.
  induction l as [|c l IH]; simpl; intros H; [reflexivity|].
  apply orb_false_iff in H. destruct H as [-> H]. now rewrite IH.
Qed.

Lemma rawLines_line (l s : string) :
  contains l LF = false ->
  bufio.rawLines (l ++ String LF s) = l :: bufio.rawLines s.
Proof.
  intros H. unfold bufio.rawLines. rewrite Split_line by exact H.
  pose proof (TreeFacts.Split_nonempty s LF) as Hne.
  simpl rev.
  destruct (rev (Split s LF)) as [|x before] eqn:E.
  - apply (f_equal (@rev string)) in E. rewrite rev_involutive in E.
    now destruct Hne.
  - simpl. destruct x; [|reflexivity].
    now rewrite rev_app_distr.
Qed.

Lemma rawLines_written (lines : list string) (s : string) :
  forallb (fun l => negb (contains l LF)) lines = true ->
  bufio.rawLines (written lines ++ s)
  = (lines ++ bufio.rawLines s)%list.
Proof.
  induction lines as [|l lines IH]; simpl; intros H; [reflexivity|].
  apply andb_true_iff in H. destruct H as [Hl H].
  apply negb_true_iff in Hl.
  rewrite StringFacts.append_assoc. simpl append.
  rewrite rawLines_line by exact Hl. now rewrite IH.
Qed.

Lemma scanWhileFits_stops (before after : list string) (long : string) :
  bufio.fits long = false ->
  bufio.scanWhileFits (before ++ long :: after)
  = bufio.scanWhileFits before.
Proof.
  intros H. induction before as [|r before IH]; simpl.
  - now rewrite H.
  - now rewrite IH.
Qed.

(** X15: a line of 65536 bytes or more ends the reading of its file
    without a word: the scanner stops at it, its error is never looked
    at, and the file loads as if it ended before that line, whatever the
    long line and the lines after it assign. *)
Theorem X15_line_too_long (lines : list string) (long rest : string)
  (env : Env) :
  forallb (fun l => negb (contains l LF)) lines = true ->
  contains long LF = false ->
  bufio.fits long = false ->
  loadFile env (written lines ++ long ++ String LF rest)
  = loadFile env (written lines)
  /\ loadFile env (written lines ++ long) = loadFile env (written lines).
Proof.
  intros Hl Hlong Hfit.
  assert (A : bufio.scanLines (written lines)
              = bufio.scanWhileFits lines).
  { unfold bufio.scanLines.
    rewrite <- (StringFacts.append_nil_r (written lines)).
    rewrite rawLines_written by exact Hl.
    change (bufio.rawLines "") with (@nil string).
    now rewrite app_nil_r. }
  unfold loadFile. rewrite A. unfold bufio.scanLines.
  rewrite !rawLines_written by exact Hl.
  rewrite rawLines_line by exact Hlong.
  rewrite scanWhileFits_stops by exact Hfit.
  split; [reflexivity|].
  assert (B : bufio.rawLines long = [long]).
  { unfold bufio.rawLines. rewrite Split_whole by exact Hlong.
    destruct long; [discriminate Hfit | reflexivity]. }
  rewrite B. now rewrite scanWhileFits_stops by exact Hfit.
Qed.

Lemma X15_sample_long_line :
  loadFile [] (written ["A=1"] ++ Cases.longLine ++ String LF "B=2")
  = loadFile [] (written ["A=1"])
  /\ loadFile [] (written ["A=1"] ++ Cases.longLine)
     = loadFile [] (written ["A=1"]).
Proof.
  apply (X15_line_too_long ["A=1"] Cases.longLine "B=2" []);
    vm_compute; reflexivity.
Defined.
